(** * privsematt: the attendance endpoint of main.go

    A shallow embedding of [checkAuthorization] and [submitHandler] and of
    the library calls they make (strings.SplitN, http.Header.Get,
    http.Error, subtle.ConstantTimeCompare, json.Unmarshal, gorm's Create,
    gomail's message builder), followed by the properties of the
    authorization gate and of the submission pipeline.

    Go strings are byte sequences: they are modelled by [string], whose
    characters are the 256 values of [ascii].  Go's [int] is [Z]. *)

From Stdlib Require Import ZArith Ascii String List Bool Lia.
From stdpp Require Import base strings list gmap.

Local Open Scope Z_scope.

(** ** Go strings and byte slices *)

(** [[]byte(s)]: the bytes of a string, each a number below 256. *)
Definition byte_of (c : ascii) : Z := Z.of_N (N_of_ascii c).

Fixpoint bytes (s : string) : list Z :=
  match s with
  | EmptyString => []
  | String c s' => byte_of c :: bytes s'
  end.

(** [len(s)] *)
Definition len (s : string) : nat := String.length s.

(** [s[:m]] and [s[m:]] *)
Fixpoint slice_to (m : nat) (s : string) : string :=
  match m, s with
  | S m', String c s' => String c (slice_to m' s')
  | _, _ => EmptyString
  end.

Fixpoint slice_from (m : nat) (s : string) : string :=
  match m, s with
  | S m', String _ s' => slice_from m' s'
  | _, _ => s
  end.

(** [strings.HasPrefix(s, prefix)] *)
Fixpoint strings_HasPrefix (s prefix : string) {struct prefix} : bool :=
  match prefix, s with
  | EmptyString, _ => true
  | String p prefix', String c s' =>
      if Ascii.eqb p c then strings_HasPrefix s' prefix' else false
  | String _ _, EmptyString => false
  end.

(** [strings.Index(s, sep)]: the offset of the first occurrence of [sep],
    [None] standing for Go's -1. *)
Fixpoint strings_Index (s sep : string) : option nat :=
  if strings_HasPrefix s sep then Some O
  else match s with
       | EmptyString => None
       | String _ s' => S <$> strings_Index s' sep
       end.

(** The loop of [strings.genSplit] with [sepSave = 0]: at most [k] cuts,
    the last element being the unsplit remainder. *)
Fixpoint genSplit_loop (k : nat) (s sep : string) : list string :=
  match k with
  | O => [s]
  | S k' =>
      match strings_Index s sep with
      | None => [s]
      | Some m => slice_to m s :: genSplit_loop k' (slice_from (m + len sep) s) sep
      end
  end.

(** [strings.SplitN(s, sep, n)] for a non-empty separator and [n >= 0],
    which is how the program calls it.  [n = 0] gives the nil slice; a
    count above [len(s) + 1] is lowered to it before the loop. *)
Definition strings_SplitN (s sep : string) (n : nat) : list string :=
  match n with
  | O => []
  | S k => genSplit_loop (Nat.min k (len s)) s sep
  end.

(** ** crypto/subtle *)

(** [ConstantTimeByteEq(x, y uint8) int]:
    [int((uint32(x^y) - 1) >> 31)], the subtraction wrapping at 32 bits. *)
Definition subtle_ConstantTimeByteEq (x y : Z) : Z :=
  Z.shiftr ((Z.lxor x y - 1) mod 2 ^ 32) 31.

(** The accumulation [v |= x[i] ^ y[i]] over the common indices. *)
Fixpoint ctc_accumulate (v : Z) (x y : list Z) : Z :=
  match x, y with
  | a :: x', b :: y' => ctc_accumulate (Z.lor v (Z.lxor a b)) x' y'
  | _, _ => v
  end.

(** [ConstantTimeCompare(x, y []byte) int] *)
Definition subtle_ConstantTimeCompare (x y : list Z) : Z :=
  if negb (length x =? length y)%nat then 0
  else subtle_ConstantTimeByteEq (ctc_accumulate 0 x y) 0.

(** ** net/http *)

Definition StatusOK : Z := 200.
Definition StatusBadRequest : Z := 400.
Definition StatusUnauthorized : Z := 401.

(** [http.Header] and [url.Values] are both [map[string][]string]. *)
Abbreviation Values := (gmap string (list string)).

(** The part of [*http.Request] the handler reads: the header map and the
    parsed form (what [r.FormValue] consults after parsing query and body). *)
Record http_Request := {
  Header : Values;
  Form : Values
}.

(** [h.Get(key)] for a key already in canonical form, such as
    "Authorization": the first value stored under it, or "". *)
Definition Header_Get (h : Values) (key : string) : string :=
  match h !! key with
  | Some (v :: _) => v
  | _ => ""
  end.

(** [r.FormValue(key)]: the first value of the form field, or "". *)
Definition FormValue (r : http_Request) (key : string) : string :=
  match Form r !! key with
  | Some (v :: _) => v
  | _ => ""
  end.

(** [http.ResponseWriter] as the state it accumulates: the header map, the
    status line once written, and the body bytes. *)
Record ResponseWriter := {
  rw_header : Values;
  rw_status : option Z;
  rw_body : string
}.

Definition Header_Set (key value : string) (w : ResponseWriter) : ResponseWriter :=
  {| rw_header := <[key := [value]]> (rw_header w);
     rw_status := rw_status w;
     rw_body := rw_body w |}.

(** [w.WriteHeader(code)]: only the first call counts. *)
Definition WriteHeader (code : Z) (w : ResponseWriter) : ResponseWriter :=
  match rw_status w with
  | Some _ => w
  | None => {| rw_header := rw_header w; rw_status := Some code; rw_body := rw_body w |}
  end.

(** [w.Write(data)]: sends the 200 status line first when none was sent. *)
Definition Write (data : string) (w : ResponseWriter) : ResponseWriter :=
  let w' := WriteHeader StatusOK w in
  {| rw_header := rw_header w'; rw_status := rw_status w';
     rw_body := rw_body w' +:+ data |}.

Definition newline : string := String "010" EmptyString.

(** [http.Error(w, error, code)] *)
Definition http_Error (w : ResponseWriter) (error : string) (code : Z) : ResponseWriter :=
  Write (error +:+ newline)
    (WriteHeader code
       (Header_Set "X-Content-Type-Options" "nosniff"
          (Header_Set "Content-Type" "text/plain; charset=utf-8" w))).

(** The status the client receives when the handler returns: the one
    written, or 200 when the handler wrote nothing. *)
Definition response_status (w : ResponseWriter) : Z :=
  match rw_status w with
  | Some code => code
  | None => StatusOK
  end.

(** ** Configuration and the authorization gate *)

Record Conf := {
  AllowedAuthorizationTokens : list string;
  BindAddr : string;
  DbPath : string
}.

(** The [for ... range] loop of [checkAuthorization]: it leaves at the
    first entry the presented token compares equal to. *)
Fixpoint token_allowed (token : list Z) (allowed : list string) : bool :=
  match allowed with
  | [] => false
  | okToken :: rest =>
      if subtle_ConstantTimeCompare token (bytes okToken) =? 1 then true
      else token_allowed token rest
  end.

(** [checkAuthorization(w, r)] with the global [conf] passed in: the
    writer after the call and the boolean returned. *)
Definition checkAuthorization (conf : Conf) (w : ResponseWriter) (r : http_Request)
  : ResponseWriter * bool :=
  if (length (AllowedAuthorizationTokens conf) =? 0)%nat then (w, true)
  else
    let auth := strings_SplitN (Header_Get (Header r) "Authorization") " " 2 in
    if negb (length auth =? 2)%nat || negb (String.eqb (nth 0 auth "") "Basic") then
      (http_Error w "Bad or missing Authorization header" StatusBadRequest, false)
    else
      let token := bytes (nth 1 auth "") in
      if token_allowed token (AllowedAuthorizationTokens conf) then (w, true)
      else (http_Error w "Access denied" StatusUnauthorized, false).

(** ** encoding/json: the scanner

    [json.Unmarshal] first runs its byte-at-a-time scanner over the whole
    input ([checkValid]) and decodes only input the scanner accepted.  The
    scanner is a state machine: a current step function, a stack of the
    enclosing composite values, and the first error met. *)

Definition in_range (lo hi c : ascii) : bool :=
  (N_of_ascii lo <=? N_of_ascii c)%N && (N_of_ascii c <=? N_of_ascii hi)%N.

Definition isDigit (c : ascii) : bool := in_range "0" "9" c.
Definition isDigit19 (c : ascii) : bool := in_range "1" "9" c.
Definition isHex (c : ascii) : bool :=
  in_range "0" "9" c || in_range "a" "f" c || in_range "A" "F" c.

Definition dquote : ascii := "034"%char.
Definition squote : ascii := "039"%char.
Definition backslash : ascii := "092"%char.

Definition isSpace (c : ascii) : bool :=
  Ascii.eqb c " " || Ascii.eqb c "009" || Ascii.eqb c "013" || Ascii.eqb c "010".

Definition hexdigit (n : Z) : ascii :=
  nth (Z.to_nat n) (list_ascii_of_string "0123456789abcdef") "0"%char.

Definition ascii_of_Z (z : Z) : ascii := ascii_of_N (Z.to_N z).

(** [quoteChar(c)]: the offending byte as it appears in a syntax error,
    that is [strconv.Quote(string(c))] between single quotes.  [string(c)]
    is the UTF-8 form of the code point U+00cc. *)
Definition quoteChar (c : ascii) : string :=
  let b := byte_of c in
  let q := String squote EmptyString in
  if Ascii.eqb c squote then q +:+ String backslash q +:+ q
  else if Ascii.eqb c dquote then q +:+ String dquote q
  else
    let inner :=
      if Ascii.eqb c backslash then String backslash (String backslash EmptyString)
      else if (32 <=? b) && (b <=? 126) then String c EmptyString
      else if (161 <=? b) && negb (b =? 173) then
        String (ascii_of_Z (Z.lor 192 (Z.shiftr b 6)))
          (String (ascii_of_Z (Z.lor 128 (Z.land b 63))) EmptyString)
      else if b =? 7 then String backslash "a"
      else if b =? 8 then String backslash "b"
      else if b =? 12 then String backslash "f"
      else if b =? 10 then String backslash "n"
      else if b =? 13 then String backslash "r"
      else if b =? 9 then String backslash "t"
      else if b =? 11 then String backslash "v"
      else if (b <? 32) || (b =? 127) then
        String backslash (String "x" (String (hexdigit (Z.shiftr b 4))
          (String (hexdigit (Z.land b 15)) EmptyString)))
      else
        String backslash (String "u" (String "0" (String "0"
          (String (hexdigit (Z.shiftr b 4))
             (String (hexdigit (Z.land b 15)) EmptyString)))))
    in q +:+ inner +:+ q.

Record SyntaxError := {
  syntax_msg : string;
  syntax_Offset : Z
}.

Inductive scan_step :=
  | stBeginValueOrEmpty | stBeginValue | stBeginStringOrEmpty | stBeginString
  | stEndValue | stEndTop
  | stInString | stInStringEsc
  | stInStringEscU | stInStringEscU1 | stInStringEscU12 | stInStringEscU123
  | stNeg | st1 | st0 | stDot | stDot0 | stE | stESign | stE0
  | stT | stTr | stTru
  | stF | stFa | stFal | stFals
  | stN | stNu | stNul
  | stError.

Inductive parse_state := parseObjectKey | parseObjectValue | parseArrayValue.

Inductive opcode :=
  | scanContinue | scanBeginLiteral
  | scanBeginObject | scanObjectKey | scanObjectValue | scanEndObject
  | scanBeginArray | scanArrayValue | scanEndArray
  | scanSkipSpace | scanEnd | scanError.

(** The scanner; [parseState] has its innermost entry first. *)
Record scanner := {
  step : scan_step;
  endTop : bool;
  parseState : list parse_state;
  err : option SyntaxError;
  scan_bytes : Z
}.

Definition maxNestingDepth : Z := 10000.

Definition scanner_reset : scanner :=
  {| step := stBeginValue; endTop := false; parseState := []; err := None;
     scan_bytes := 0 |}.

Definition goto (st : scan_step) (s : scanner) : scanner :=
  {| step := st; endTop := endTop s; parseState := parseState s; err := err s;
     scan_bytes := scan_bytes s |}.

Definition set_parseState (ps : list parse_state) (s : scanner) : scanner :=
  {| step := step s; endTop := endTop s; parseState := ps; err := err s;
     scan_bytes := scan_bytes s |}.

(** [s.error(c, context)] *)
Definition scanner_error (s : scanner) (c : ascii) (context : string) : scanner * opcode :=
  ({| step := stError; endTop := endTop s; parseState := parseState s;
      err := Some {| syntax_msg := "invalid character " +:+ quoteChar c +:+ " " +:+ context;
                     syntax_Offset := scan_bytes s |};
      scan_bytes := scan_bytes s |}, scanError).

Definition pushParseState (s : scanner) (c : ascii) (p : parse_state) (success : opcode)
  : scanner * opcode :=
  let s' := set_parseState (p :: parseState s) s in
  if Z.of_nat (length (parseState s')) <=? maxNestingDepth then (s', success)
  else scanner_error s' c "exceeded max depth".

Definition popParseState (s : scanner) : scanner :=
  match tail (parseState s) with
  | [] => {| step := stEndTop; endTop := true; parseState := []; err := err s;
             scan_bytes := scan_bytes s |}
  | ps => {| step := stEndValue; endTop := endTop s; parseState := ps; err := err s;
             scan_bytes := scan_bytes s |}
  end.

(** Replaces the innermost entry: [s.parseState[n-1] = p]. *)
Definition set_top (p : parse_state) (s : scanner) : scanner :=
  set_parseState (p :: tail (parseState s)) s.

Definition stateEndTop (s : scanner) (c : ascii) : scanner * opcode :=
  if negb (isSpace c) then (fst (scanner_error s c "after top-level value"), scanEnd)
  else (s, scanEnd).

Definition stateEndValue (s : scanner) (c : ascii) : scanner * opcode :=
  match parseState s with
  | [] =>
      stateEndTop {| step := stEndTop; endTop := true; parseState := []; err := err s;
                     scan_bytes := scan_bytes s |} c
  | ps :: _ =>
      if isSpace c then (goto stEndValue s, scanSkipSpace)
      else match ps with
           | parseObjectKey =>
               if Ascii.eqb c ":" then (goto stBeginValue (set_top parseObjectValue s), scanObjectKey)
               else scanner_error s c "after object key"
           | parseObjectValue =>
               if Ascii.eqb c "," then (goto stBeginString (set_top parseObjectKey s), scanObjectValue)
               else if Ascii.eqb c "}" then (popParseState s, scanEndObject)
               else scanner_error s c "after object key:value pair"
           | parseArrayValue =>
               if Ascii.eqb c "," then (goto stBeginValue s, scanArrayValue)
               else if Ascii.eqb c "]" then (popParseState s, scanEndArray)
               else scanner_error s c "after array element"
           end
  end.

Definition stateBeginValue (s : scanner) (c : ascii) : scanner * opcode :=
  if isSpace c then (s, scanSkipSpace)
  else if Ascii.eqb c "{" then
    pushParseState (goto stBeginStringOrEmpty s) c parseObjectKey scanBeginObject
  else if Ascii.eqb c "[" then
    pushParseState (goto stBeginValueOrEmpty s) c parseArrayValue scanBeginArray
  else if Ascii.eqb c dquote then (goto stInString s, scanBeginLiteral)
  else if Ascii.eqb c "-" then (goto stNeg s, scanBeginLiteral)
  else if Ascii.eqb c "0" then (goto st0 s, scanBeginLiteral)
  else if Ascii.eqb c "t" then (goto stT s, scanBeginLiteral)
  else if Ascii.eqb c "f" then (goto stF s, scanBeginLiteral)
  else if Ascii.eqb c "n" then (goto stN s, scanBeginLiteral)
  else if isDigit19 c then (goto st1 s, scanBeginLiteral)
  else scanner_error s c "looking for beginning of value".

Definition stateBeginValueOrEmpty (s : scanner) (c : ascii) : scanner * opcode :=
  if isSpace c then (s, scanSkipSpace)
  else if Ascii.eqb c "]" then stateEndValue s c
  else stateBeginValue s c.

Definition stateBeginString (s : scanner) (c : ascii) : scanner * opcode :=
  if isSpace c then (s, scanSkipSpace)
  else if Ascii.eqb c dquote then (goto stInString s, scanBeginLiteral)
  else scanner_error s c "looking for beginning of object key string".

Definition stateBeginStringOrEmpty (s : scanner) (c : ascii) : scanner * opcode :=
  if isSpace c then (s, scanSkipSpace)
  else if Ascii.eqb c "}" then stateEndValue (set_top parseObjectValue s) c
  else stateBeginString s c.

Definition stateInString (s : scanner) (c : ascii) : scanner * opcode :=
  if Ascii.eqb c dquote then (goto stEndValue s, scanContinue)
  else if Ascii.eqb c backslash then (goto stInStringEsc s, scanContinue)
  else if byte_of c <? 32 then scanner_error s c "in string literal"
  else (s, scanContinue).

Definition stateInStringEsc (s : scanner) (c : ascii) : scanner * opcode :=
  if Ascii.eqb c "b" || Ascii.eqb c "f" || Ascii.eqb c "n" || Ascii.eqb c "r"
     || Ascii.eqb c "t" || Ascii.eqb c backslash || Ascii.eqb c "/" || Ascii.eqb c dquote
  then (goto stInString s, scanContinue)
  else if Ascii.eqb c "u" then (goto stInStringEscU s, scanContinue)
  else scanner_error s c "in string escape code".

(** The four states after a backslash-u share one body; [next] is the
    state after this hexadecimal digit. *)
Definition stateInStringEscHex (next : scan_step) (s : scanner) (c : ascii)
  : scanner * opcode :=
  if isHex c then (goto next s, scanContinue)
  else scanner_error s c ("in " +:+ String backslash "u hexadecimal character escape").

Definition state0 (s : scanner) (c : ascii) : scanner * opcode :=
  if Ascii.eqb c "." then (goto stDot s, scanContinue)
  else if Ascii.eqb c "e" || Ascii.eqb c "E" then (goto stE s, scanContinue)
  else stateEndValue s c.

Definition state1 (s : scanner) (c : ascii) : scanner * opcode :=
  if isDigit c then (goto st1 s, scanContinue) else state0 s c.

Definition stateNeg (s : scanner) (c : ascii) : scanner * opcode :=
  if Ascii.eqb c "0" then (goto st0 s, scanContinue)
  else if isDigit19 c then (goto st1 s, scanContinue)
  else scanner_error s c "in numeric literal".

Definition stateDot (s : scanner) (c : ascii) : scanner * opcode :=
  if isDigit c then (goto stDot0 s, scanContinue)
  else scanner_error s c "after decimal point in numeric literal".

Definition stateDot0 (s : scanner) (c : ascii) : scanner * opcode :=
  if isDigit c then (s, scanContinue)
  else if Ascii.eqb c "e" || Ascii.eqb c "E" then (goto stE s, scanContinue)
  else stateEndValue s c.

Definition stateESign (s : scanner) (c : ascii) : scanner * opcode :=
  if isDigit c then (goto stE0 s, scanContinue)
  else scanner_error s c "in exponent of numeric literal".

Definition stateE (s : scanner) (c : ascii) : scanner * opcode :=
  if Ascii.eqb c "+" || Ascii.eqb c "-" then (goto stESign s, scanContinue)
  else stateESign s c.

Definition stateE0 (s : scanner) (c : ascii) : scanner * opcode :=
  if isDigit c then (s, scanContinue) else stateEndValue s c.

(** The states inside [true], [false] and [null]: the next byte must be
    [want]. *)
Definition stateLiteral (want : ascii) (next : scan_step) (literal : string)
    (s : scanner) (c : ascii) : scanner * opcode :=
  if Ascii.eqb c want then (goto next s, scanContinue)
  else scanner_error s c
         ("in literal " +:+ literal +:+ " (expecting " +:+ quoteChar want +:+ ")").

(** [s.step(s, c)]: dispatch on the current step function. *)
Definition scanner_step (s : scanner) (c : ascii) : scanner * opcode :=
  match step s with
  | stBeginValueOrEmpty => stateBeginValueOrEmpty s c
  | stBeginValue => stateBeginValue s c
  | stBeginStringOrEmpty => stateBeginStringOrEmpty s c
  | stBeginString => stateBeginString s c
  | stEndValue => stateEndValue s c
  | stEndTop => stateEndTop s c
  | stInString => stateInString s c
  | stInStringEsc => stateInStringEsc s c
  | stInStringEscU => stateInStringEscHex stInStringEscU1 s c
  | stInStringEscU1 => stateInStringEscHex stInStringEscU12 s c
  | stInStringEscU12 => stateInStringEscHex stInStringEscU123 s c
  | stInStringEscU123 => stateInStringEscHex stInString s c
  | stNeg => stateNeg s c
  | st1 => state1 s c
  | st0 => state0 s c
  | stDot => stateDot s c
  | stDot0 => stateDot0 s c
  | stE => stateE s c
  | stESign => stateESign s c
  | stE0 => stateE0 s c
  | stT => stateLiteral "r" stTr "true" s c
  | stTr => stateLiteral "u" stTru "true" s c
  | stTru => stateLiteral "e" stEndValue "true" s c
  | stF => stateLiteral "a" stFa "false" s c
  | stFa => stateLiteral "l" stFal "false" s c
  | stFal => stateLiteral "s" stFals "false" s c
  | stFals => stateLiteral "e" stEndValue "false" s c
  | stN => stateLiteral "u" stNu "null" s c
  | stNu => stateLiteral "l" stNul "null" s c
  | stNul => stateLiteral "l" stEndValue "null" s c
  | stError => (s, scanError)
  end.

Definition count_byte (s : scanner) : scanner :=
  {| step := step s; endTop := endTop s; parseState := parseState s; err := err s;
     scan_bytes := scan_bytes s + 1 |}.

Definition unexpected_end (s : scanner) : SyntaxError :=
  {| syntax_msg := "unexpected end of JSON input"; syntax_Offset := scan_bytes s |}.

(** [s.eof()]: the error, if the input cannot end here. *)
Definition scanner_eof (s : scanner) : option SyntaxError :=
  match err s with
  | Some e => Some e
  | None =>
      if endTop s then None
      else
        let s' := fst (scanner_step s " ") in
        if endTop s' then None
        else match err s' with
             | Some e => Some e
             | None => Some (unexpected_end s')
             end
  end.

(** The loop of [checkValid] from a given scanner state. *)
Fixpoint checkValid_from (s : scanner) (data : string) : option SyntaxError :=
  match data with
  | EmptyString => scanner_eof s
  | String c rest =>
      let '(s', op) := scanner_step (count_byte s) c in
      match op with
      | scanError => err s'
      | _ => checkValid_from s' rest
      end
  end.

(** [checkValid(data, scan)]: [None] when [data] is one JSON value. *)
Definition checkValid (data : string) : option SyntaxError :=
  checkValid_from scanner_reset data.

(** ** encoding/json: string literals *)

Definition RuneError : Z := 65533.
Definition MaxRune : Z := 1114111.

Definition is_cont (lo hi : Z) (c : ascii) : bool :=
  (lo <=? byte_of c) && (byte_of c <=? hi).

(** [utf8.DecodeRune(p)] on a non-empty [p]: the code point and its width,
    [(RuneError, 1)] for a byte that starts no well-formed sequence. *)
Definition utf8_DecodeRune (p : string) : Z * nat :=
  match p with
  | EmptyString => (RuneError, O)
  | String c0 rest =>
      let p0 := byte_of c0 in
      if p0 <? 128 then (p0, 1%nat)
      else if (p0 <? 194) || (244 <? p0) then (RuneError, 1%nat)
      else
        (* width and the range accepted for the second byte *)
        let sz := if p0 <? 224 then 2%nat else if p0 <? 240 then 3%nat else 4%nat in
        let lo := if p0 =? 224 then 160 else if p0 =? 240 then 144 else 128 in
        let hi := if p0 =? 237 then 159 else if p0 =? 244 then 143 else 191 in
        match rest with
        | EmptyString => (RuneError, 1%nat)
        | String c1 rest1 =>
            if negb (is_cont lo hi c1) then (RuneError, 1%nat)
            else if (sz <=? 2)%nat then
              (Z.lor (Z.shiftl (Z.land p0 31) 6) (Z.land (byte_of c1) 63), 2%nat)
            else
              match rest1 with
              | EmptyString => (RuneError, 1%nat)
              | String c2 rest2 =>
                  if negb (is_cont 128 191 c2) then (RuneError, 1%nat)
                  else if (sz <=? 3)%nat then
                    (Z.lor (Z.lor (Z.shiftl (Z.land p0 15) 12)
                                  (Z.shiftl (Z.land (byte_of c1) 63) 6))
                           (Z.land (byte_of c2) 63), 3%nat)
                  else
                    match rest2 with
                    | EmptyString => (RuneError, 1%nat)
                    | String c3 _ =>
                        if negb (is_cont 128 191 c3) then (RuneError, 1%nat)
                        else
                          (Z.lor (Z.lor (Z.lor (Z.shiftl (Z.land p0 7) 18)
                                               (Z.shiftl (Z.land (byte_of c1) 63) 12))
                                        (Z.shiftl (Z.land (byte_of c2) 63) 6))
                                 (Z.land (byte_of c3) 63), 4%nat)
                    end
              end
        end
  end.

Definition string_of_bytes (l : list Z) : string :=
  string_of_list_ascii (map ascii_of_Z l).

(** [utf8.EncodeRune]: the UTF-8 bytes of a code point; surrogates and
    values out of range are written as U+FFFD. *)
Definition utf8_EncodeRune (r : Z) : string :=
  if (0 <=? r) && (r <=? 127) then string_of_bytes [r]
  else if (0 <=? r) && (r <=? 2047) then
    string_of_bytes [Z.lor 192 (Z.shiftr r 6); Z.lor 128 (Z.land r 63)]
  else if (r <? 0) || (MaxRune <? r) || ((55296 <=? r) && (r <=? 57343)) then
    string_of_bytes [239; 191; 189]
  else if r <=? 65535 then
    string_of_bytes [Z.lor 224 (Z.shiftr r 12); Z.lor 128 (Z.land (Z.shiftr r 6) 63);
                     Z.lor 128 (Z.land r 63)]
  else
    string_of_bytes [Z.lor 240 (Z.shiftr r 18); Z.lor 128 (Z.land (Z.shiftr r 12) 63);
                     Z.lor 128 (Z.land (Z.shiftr r 6) 63); Z.lor 128 (Z.land r 63)].

Definition hexval (c : ascii) : option Z :=
  let b := byte_of c in
  if in_range "0" "9" c then Some (b - 48)
  else if in_range "a" "f" c then Some (b - 97 + 10)
  else if in_range "A" "F" c then Some (b - 65 + 10)
  else None.

(** [getu4(s)]: the code unit of a backslash-u escape at the head of [s],
    [None] standing for -1. *)
Definition getu4 (s : string) : option Z :=
  match s with
  | String b (String u (String h1 (String h2 (String h3 (String h4 _))))) =>
      if Ascii.eqb b backslash && Ascii.eqb u "u" then
        match hexval h1, hexval h2, hexval h3, hexval h4 with
        | Some a, Some b', Some c, Some d => Some (((a * 16 + b') * 16 + c) * 16 + d)
        | _, _, _, _ => None
        end
      else None
  | _ => None
  end.

Definition utf16_IsSurrogate (r : Z) : bool := (55296 <=? r) && (r <? 57344).

(** [utf16.DecodeRune(r1, r2)] *)
Definition utf16_DecodeRune (r1 r2 : Z) : Z :=
  if (55296 <=? r1) && (r1 <? 56320) && (56320 <=? r2) && (r2 <? 57344)
  then Z.lor (Z.shiftl (r1 - 55296) 10) (r2 - 56320) + 65536
  else RuneError.

(** One turn of the copying loop of [unquoteBytes] at [s = String c rest]:
    the bytes written and the number of input bytes consumed, or [None]
    where the loop gives up. *)
Definition unquote_at (s : string) : option (string * nat) :=
  match s with
  | EmptyString => None
  | String c rest =>
      if Ascii.eqb c backslash then
        match rest with
        | EmptyString => None
        | String e _ =>
            if Ascii.eqb e dquote || Ascii.eqb e backslash || Ascii.eqb e "/"
               || Ascii.eqb e squote
            then Some (String e EmptyString, 2%nat)
            else if Ascii.eqb e "b" then Some (String "008" EmptyString, 2%nat)
            else if Ascii.eqb e "f" then Some (String "012" EmptyString, 2%nat)
            else if Ascii.eqb e "n" then Some (String "010" EmptyString, 2%nat)
            else if Ascii.eqb e "r" then Some (String "013" EmptyString, 2%nat)
            else if Ascii.eqb e "t" then Some (String "009" EmptyString, 2%nat)
            else if Ascii.eqb e "u" then
              match getu4 s with
              | None => None
              | Some rr =>
                  if utf16_IsSurrogate rr then
                    let dec := match getu4 (slice_from 6 s) with
                               | Some rr1 => utf16_DecodeRune rr rr1
                               | None => RuneError
                               end in
                    if negb (dec =? RuneError) then Some (utf8_EncodeRune dec, 12%nat)
                    else Some (utf8_EncodeRune RuneError, 6%nat)
                  else Some (utf8_EncodeRune rr, 6%nat)
              end
            else None
        end
      else if Ascii.eqb c dquote || (byte_of c <? 32) then None
      else if byte_of c <? 128 then Some (String c EmptyString, 1%nat)
      else
        let '(rr, size) := utf8_DecodeRune s in
        Some (utf8_EncodeRune rr, size)
  end.

(** The copying loop itself; [skip] counts input bytes the previous turn
    has already consumed. *)
Fixpoint unquote_loop (skip : nat) (s : string) : option string :=
  match s with
  | EmptyString => Some EmptyString
  | String _ rest =>
      match skip with
      | S k => unquote_loop k rest
      | O =>
          match unquote_at s with
          | None => None
          | Some (out, size) => (fun t => out +:+ t) <$> unquote_loop (size - 1) rest
          end
      end
  end.

(** [s[:len(s)-1]] *)
Fixpoint drop_last (s : string) : string :=
  match s with
  | EmptyString => EmptyString
  | String c EmptyString => EmptyString
  | String c s' => String c (drop_last s')
  end.

Fixpoint last_is (q : ascii) (s : string) : bool :=
  match s with
  | EmptyString => false
  | String c EmptyString => Ascii.eqb c q
  | String _ s' => last_is q s'
  end.

(** [unquoteBytes(s)]: the value of a quoted string literal. *)
Definition unquoteBytes (s : string) : option string :=
  match s with
  | String q body =>
      if Ascii.eqb q dquote && last_is dquote body
      then unquote_loop 0 (drop_last body)
      else None
  | EmptyString => None
  end.

(** ** encoding/json: values

    The decoder walks the input a second time, driven by the scanner's
    opcodes.  The walk is modelled by a builder that assembles the value
    read: a literal is the bytes from [scanBeginLiteral] through the last
    [scanContinue]; composite values are kept on a stack of frames. *)

#[warning="-register-all"]
Inductive json :=
  | JNull
  | JBool (b : bool)
  | JNumber (literal : string)
  | JString (s : string)
  | JArray (elems : list json)
  | JObject (members : list (string * json)).

Inductive frame :=
  | ArrayFrame (elems : list json)
  | ObjectFrame (members : list (string * json)) (key : option string).

Record builder := {
  lit : option string;     (* the literal being read *)
  done : option json;      (* the value just completed, not yet placed *)
  frames : list frame;     (* the composite values being read, innermost first *)
  in_sync : bool           (* false once the opcodes stop fitting the value *)
}.

Definition builder_init : builder :=
  {| lit := None; done := None; frames := []; in_sync := true |}.

Definition out_of_sync (b : builder) : builder :=
  {| lit := None; done := None; frames := frames b; in_sync := false |}.

(** What [literalStore] reads from a literal, by its first byte. *)
Definition value_of_literal (item : string) : option json :=
  match item with
  | EmptyString => None
  | String c _ =>
      if Ascii.eqb c "n" then Some JNull
      else if Ascii.eqb c "t" then Some (JBool true)
      else if Ascii.eqb c "f" then Some (JBool false)
      else if Ascii.eqb c dquote then JString <$> unquoteBytes item
      else Some (JNumber item)
  end.

Definition close_literal (b : builder) : builder :=
  match lit b with
  | None => b
  | Some item =>
      match value_of_literal item with
      | Some v => {| lit := None; done := Some v; frames := frames b; in_sync := in_sync b |}
      | None => out_of_sync b
      end
  end.

Definition placed (fs : list frame) (b : builder) : builder :=
  {| lit := None; done := None; frames := fs; in_sync := in_sync b |}.

Definition completed (v : json) (fs : list frame) (b : builder) : builder :=
  {| lit := None; done := Some v; frames := fs; in_sync := in_sync b |}.

(** The builder's reaction to byte [c] on which the scanner answered [op]. *)
Definition feed (b : builder) (c : ascii) (op : opcode) : builder :=
  match op with
  | scanContinue =>
      match lit b with
      | Some item =>
          {| lit := Some (item +:+ String c EmptyString); done := done b;
             frames := frames b; in_sync := in_sync b |}
      | None => out_of_sync b
      end
  | _ =>
      let b := close_literal b in
      match op with
      | scanBeginLiteral =>
          {| lit := Some (String c EmptyString); done := done b; frames := frames b;
             in_sync := in_sync b |}
      | scanBeginObject => placed (ObjectFrame [] None :: frames b) b
      | scanBeginArray => placed (ArrayFrame [] :: frames b) b
      | scanObjectKey =>
          match done b, frames b with
          | Some (JString k), ObjectFrame ms None :: fs =>
              placed (ObjectFrame ms (Some k) :: fs) b
          | _, _ => out_of_sync b
          end
      | scanObjectValue =>
          match done b, frames b with
          | Some v, ObjectFrame ms (Some k) :: fs =>
              placed (ObjectFrame (ms ++ [(k, v)]) None :: fs) b
          | _, _ => out_of_sync b
          end
      | scanEndObject =>
          match done b, frames b with
          | Some v, ObjectFrame ms (Some k) :: fs => completed (JObject (ms ++ [(k, v)])) fs b
          | None, ObjectFrame ms None :: fs => completed (JObject ms) fs b
          | _, _ => out_of_sync b
          end
      | scanArrayValue =>
          match done b, frames b with
          | Some v, ArrayFrame es :: fs => placed (ArrayFrame (es ++ [v]) :: fs) b
          | _, _ => out_of_sync b
          end
      | scanEndArray =>
          match done b, frames b with
          | Some v, ArrayFrame es :: fs => completed (JArray (es ++ [v])) fs b
          | None, ArrayFrame es :: fs => completed (JArray es) fs b
          | _, _ => out_of_sync b
          end
      | scanSkipSpace | scanEnd | scanContinue => b
      | scanError => out_of_sync b
      end
  end.

Definition builder_result (b : builder) : option json :=
  let b := close_literal b in
  match frames b with
  | [] => if in_sync b then done b else None
  | _ :: _ => None
  end.

Fixpoint read_value_from (s : scanner) (b : builder) (data : string) : option json :=
  match data with
  | EmptyString => builder_result b
  | String c rest =>
      let '(s', op) := scanner_step (count_byte s) c in
      read_value_from s' (feed b c op) rest
  end.

(** The value a scanner-accepted input denotes. *)
Definition read_value (data : string) : option json :=
  read_value_from scanner_reset builder_init data.

(** ** encoding/json: the scanner and the decoder in step

    What relates the scanner to the builder that follows its opcodes.
    These definitions serve the proof that the builder has a value for
    every input the scanner accepts. *)

Definition is_simple_escape (c : ascii) : bool :=
  Ascii.eqb c "b" || Ascii.eqb c "f" || Ascii.eqb c "n" || Ascii.eqb c "r"
  || Ascii.eqb c "t" || Ascii.eqb c backslash || Ascii.eqb c "/" || Ascii.eqb c dquote.

(** The scanner's states inside a string literal, as an automaton over the
    bytes after the opening quote; [None] where the scanner leaves the
    literal or reports an error. *)
Definition string_delta (st : scan_step) (c : ascii) : option scan_step :=
  match st with
  | stInString =>
      if Ascii.eqb c dquote then None
      else if Ascii.eqb c backslash then Some stInStringEsc
      else if byte_of c <? 32 then None
      else Some stInString
  | stInStringEsc =>
      if is_simple_escape c then Some stInString
      else if Ascii.eqb c "u" then Some stInStringEscU
      else None
  | stInStringEscU => if isHex c then Some stInStringEscU1 else None
  | stInStringEscU1 => if isHex c then Some stInStringEscU12 else None
  | stInStringEscU12 => if isHex c then Some stInStringEscU123 else None
  | stInStringEscU123 => if isHex c then Some stInString else None
  | _ => None
  end.

(** The state after the bytes of [body], starting in [st]. *)
Fixpoint string_run (st : scan_step) (body : string) : option scan_step :=
  match body with
  | EmptyString => Some st
  | String c rest =>
      match string_delta st c with
      | Some st' => string_run st' rest
      | None => None
      end
  end.

(** The innermost composite value is an object waiting for a key. *)
Definition awaits_key (ps : list parse_state) : bool :=
  match ps with
  | parseObjectKey :: _ => true
  | _ => false
  end.

(** A frame of the builder and the scanner's entry for the same value. *)
Definition frame_fits (p : parse_state) (f : frame) : Prop :=
  match p, f with
  | parseArrayValue, ArrayFrame _ => True
  | parseObjectKey, ObjectFrame _ None => True
  | parseObjectValue, ObjectFrame _ (Some _) => True
  | _, _ => False
  end.

(** Where a key is expected, the value is a string. *)
Definition is_key (ps : list parse_state) (v : json) : Prop :=
  awaits_key ps = true -> exists k, v = JString k.

(** A finished value is at hand: a literal that has a value, or a value
    completed and not yet placed. *)
Definition at_hand (ps : list parse_state) (b : builder) : Prop :=
  match lit b, done b with
  | Some item, None => exists v, value_of_literal item = Some v /\ is_key ps v
  | None, Some v => is_key ps v
  | _, _ => False
  end.

Definition nothing_read (b : builder) : Prop := lit b = None /\ done b = None.

(** A number or one of [true], [false], [null] is being read: the literal
    so far does not start with a quote, and no key is expected here. *)
Definition in_literal (s : scanner) (b : builder) : Prop :=
  exists c rest, lit b = Some (String c rest) /\ Ascii.eqb c dquote = false
                 /\ done b = None /\ awaits_key (parseState s) = false.

(** What the current step function of the scanner says about the builder. *)
Definition step_inv (s : scanner) (b : builder) : Prop :=
  match step s with
  | stBeginValue => nothing_read b /\ awaits_key (parseState s) = false
  | stBeginValueOrEmpty =>
      nothing_read b /\ exists ps, parseState s = parseArrayValue :: ps
  | stBeginString | stBeginStringOrEmpty =>
      nothing_read b /\ awaits_key (parseState s) = true
  | stEndValue => at_hand (parseState s) b
  | stEndTop => parseState s = [] /\ at_hand [] b
  | stInString | stInStringEsc | stInStringEscU | stInStringEscU1
  | stInStringEscU12 | stInStringEscU123 =>
      exists body, lit b = Some (String dquote body) /\ done b = None
                   /\ string_run stInString body = Some (step s)
  | stError => False
  | _ => in_literal s b
  end.

(** The scanner and the builder are in step. *)
Record inv (s : scanner) (b : builder) : Prop := {
  inv_err : err s = None;
  inv_sync : in_sync b = true;
  inv_frames : Forall2 frame_fits (parseState s) (frames b);
  inv_below : Forall (fun p => p <> parseObjectKey) (tail (parseState s));
  inv_top : endTop s = true -> step s = stEndTop;
  inv_step : step_inv s b
}.

(** The scanner has met its error. *)
Definition failed (s : scanner) : Prop := err s <> None /\ step s = stError.

(** What one byte leads to: an error reported now, an error reported at
    the next byte or at the end, or a state in which the invariant holds. *)
Definition outcome (s' : scanner) (op : opcode) (b' : builder) : Prop :=
  match op with
  | scanError => err s' <> None
  | _ => failed s' \/ inv s' b'
  end.

(** The states a byte of a number or of [true], [false], [null] leads to. *)
Definition is_literal_state (st : scan_step) : bool :=
  match st with
  | stNeg | st1 | st0 | stDot | stDot0 | stE | stESign | stE0
  | stT | stTr | stTru | stF | stFa | stFal | stFals | stN | stNu | stNul
  | stEndValue => true
  | _ => false
  end.

(** ** The program's data *)

(** Data sent along with the POST request. *)
Record Request := {
  Name : string;
  SurfId : string;
  EMail : string
}.

(** The zero value of [var request Request]. *)
Definition Request_zero : Request := {| Name := ""; SurfId := ""; EMail := "" |}.

(** [time.Time] as an instant, in nanoseconds. *)
Definition Time := Z.

(** Records of attendance: Go's [Record] struct. *)
Record AttendanceRecord := {
  Record_ID : Z;
  Record_When : Time;
  Record_Name : string;
  Record_SurfId : string;
  Record_EMail : string
}.

(** ** encoding/json: decoding into [Request] *)

Inductive field := field_Name | field_SurfId | field_EMail.

Definition field_name (f : field) : string :=
  match f with
  | field_Name => "Name"
  | field_SurfId => "SurfId"
  | field_EMail => "EMail"
  end.

Definition upper (c : ascii) : ascii :=
  if in_range "a" "z" c then ascii_of_Z (byte_of c - 32) else c.

(** Case folding of an object key as the decoder's fallback comparison
    sees it: ASCII letters without case, the long s (U+017F, bytes C5 BF)
    as S and the Kelvin sign (U+212A, bytes E2 84 AA) as K. *)
Fixpoint foldName (s : string) : string :=
  match s with
  | EmptyString => EmptyString
  | String c rest =>
      match rest with
      | String c1 rest1 =>
          if (byte_of c =? 197) && (byte_of c1 =? 191) then String "S" (foldName rest1)
          else
            match rest1 with
            | String c2 rest2 =>
                if (byte_of c =? 226) && (byte_of c1 =? 132) && (byte_of c2 =? 170)
                then String "K" (foldName rest2)
                else String (upper c) (foldName rest)
            | EmptyString => String (upper c) (foldName rest)
            end
      | EmptyString => String (upper c) (foldName rest)
      end
  end.

(** The struct field an object key addresses: an exact match on the name
    is preferred, then the first field equal under folding. *)
Definition find_field (key : string) : option field :=
  let fields := [field_Name; field_SurfId; field_EMail] in
  match find (fun f => String.eqb (field_name f) key) fields with
  | Some f => Some f
  | None => find (fun f => String.eqb (foldName (field_name f)) (foldName key)) fields
  end.

Record UnmarshalTypeError := {
  ute_Value : string;    (* description of the JSON value *)
  ute_Type : string;     (* the Go type it could not be assigned to *)
  ute_Struct : string;   (* the struct holding the field, if any *)
  ute_Field : string
}.

Inductive json_error :=
  | ErrSyntax (e : SyntaxError)
  | ErrUnmarshalType (e : UnmarshalTypeError)
  | ErrPhase.

(** The decoder's message when its second walk disagrees with the
    scanner, where Go panics.  No input reaches it: see
    [json_Unmarshal_in_phase]. *)
Definition phasePanicMsg : string :=
  "JSON decoder out of sync - data changing underfoot?".

(** [err.Error()] *)
Definition Error (e : json_error) : string :=
  match e with
  | ErrSyntax s => syntax_msg s
  | ErrUnmarshalType u =>
      if negb (String.eqb (ute_Struct u) "") || negb (String.eqb (ute_Field u) "") then
        "json: cannot unmarshal " +:+ ute_Value u +:+ " into Go struct field "
          +:+ ute_Struct u +:+ "." +:+ ute_Field u +:+ " of type " +:+ ute_Type u
      else
        "json: cannot unmarshal " +:+ ute_Value u +:+ " into Go value of type "
          +:+ ute_Type u
  | ErrPhase => phasePanicMsg
  end.

Record decodeState := {
  target : Request;
  savedError : option UnmarshalTypeError
}.

(** [d.saveError(err)]: only the first error is kept. *)
Definition saveError (e : UnmarshalTypeError) (d : decodeState) : decodeState :=
  match savedError d with
  | Some _ => d
  | None => {| target := target d; savedError := Some e |}
  end.

Definition set_field (f : field) (s : string) (d : decodeState) : decodeState :=
  let t := target d in
  {| target :=
       match f with
       | field_Name => {| Name := s; SurfId := SurfId t; EMail := EMail t |}
       | field_SurfId => {| Name := Name t; SurfId := s; EMail := EMail t |}
       | field_EMail => {| Name := Name t; SurfId := SurfId t; EMail := s |}
       end;
     savedError := savedError d |}.

Definition json_kind (v : json) : string :=
  match v with
  | JNull => "null"
  | JBool _ => "bool"
  | JNumber _ => "number"
  | JString _ => "string"
  | JArray _ => "array"
  | JObject _ => "object"
  end.

(** Storing a member's value into a string field: a string is assigned,
    [null] leaves the field as it is, anything else is a type error and
    decoding goes on. *)
Definition store_field (f : field) (v : json) (d : decodeState) : decodeState :=
  match v with
  | JString s => set_field f s d
  | JNull => d
  | _ => saveError {| ute_Value := json_kind v; ute_Type := "string";
                      ute_Struct := "Request"; ute_Field := field_name f |} d
  end.

Definition decode_member (d : decodeState) (m : string * json) : decodeState :=
  match find_field (fst m) with
  | Some f => store_field f (snd m) d
  | None => d
  end.

(** [d.value(rv)] for [rv] the [Request] struct. *)
Definition decode_value (v : json) (d : decodeState) : decodeState :=
  match v with
  | JNull => d
  | JObject members => fold_left decode_member members d
  | _ => saveError {| ute_Value := json_kind v; ute_Type := "main.Request";
                      ute_Struct := ""; ute_Field := "" |} d
  end.

(** [json.Unmarshal(data, &request)]: the struct afterwards and the error
    returned. *)
Definition json_Unmarshal (data : string) (request : Request)
  : Request * option json_error :=
  match checkValid data with
  | Some e => (request, Some (ErrSyntax e))
  | None =>
      match read_value data with
      | None => (request, Some ErrPhase)
      | Some v =>
          let d := decode_value v {| target := request; savedError := None |} in
          (target d, ErrUnmarshalType <$> savedError d)
      end
  end.

(** The value of a field, and the members a decode accepts: a member
    fits when its key addresses no field, or its value is a string or
    [null]. *)
Definition get_field (f : field) (t : Request) : string :=
  match f with
  | field_Name => Name t
  | field_SurfId => SurfId t
  | field_EMail => EMail t
  end.

Definition assignable (v : json) : bool :=
  match v with
  | JString _ | JNull => true
  | _ => false
  end.

Definition member_fits (m : string * json) : bool :=
  match find_field (fst m) with
  | Some _ => assignable (snd m)
  | None => true
  end.

(** ** gomail: the message under construction

    A message is what the handler sets on it: header fields, each with the
    values handed to [SetHeader], and the body part.  The transfer encoding
    gomail applies when the message is sent is not part of the model. *)

Record Message := {
  msg_header : Values;
  msg_parts : list (string * string)     (* content type and body *)
}.

Definition gomail_NewMessage : Message := {| msg_header := ∅; msg_parts := [] |}.

Definition SetHeader (field value : string) (m : Message) : Message :=
  {| msg_header := <[field := [value]]> (msg_header m); msg_parts := msg_parts m |}.

Definition SetBody (contentType body : string) (m : Message) : Message :=
  {| msg_header := msg_header m; msg_parts := [(contentType, body)] |}.

(** ** The server's state and its surroundings *)

(** What a call of the handler can change besides the response: the clock
    it reads, the records table behind [db] with the calls of [db.Create]
    made so far, the log, and the messages handed to goroutines that run
    [mailer.DialAndSend]. *)
Record World := {
  wall : Time;
  table : list AttendanceRecord;
  next_ID : Z;
  creates : list AttendanceRecord;     (* the arguments of the calls of db.Create *)
  log_lines : list string;
  sending : list Message
}.

(** What the surroundings decide during one call: how long it takes to
    reach [time.Now()], how long the rest of the call takes, and whether
    the INSERT fails (with which error text). *)
Record Env := {
  until_now : N;
  until_return : N;
  create_error : option string
}.

Definition elapse (d : N) (st : World) : World :=
  {| wall := wall st + Z.of_N d; table := table st; next_ID := next_ID st;
     creates := creates st; log_lines := log_lines st; sending := sending st |}.

(** [time.Now()] *)
Definition time_Now (env : Env) (st : World) : World * Time :=
  let st' := elapse (until_now env) st in (st', wall st').

Definition called_Create (record : AttendanceRecord) (st : World) : World :=
  {| wall := wall st; table := table st; next_ID := next_ID st;
     creates := creates st ++ [record]; log_lines := log_lines st;
     sending := sending st |}.

(** [db.Create(&record)]: on success the row is stored under the next
    primary key, which is written back into [record]; on failure neither
    the table nor [record] changes and the error is returned in [.Error]. *)
Definition gorm_Create (env : Env) (st : World) (record : AttendanceRecord)
  : World * AttendanceRecord * option string :=
  let st := called_Create record st in
  match create_error env with
  | Some e => (st, record, Some e)
  | None =>
      let stored :=
        {| Record_ID := next_ID st; Record_When := Record_When record;
           Record_Name := Record_Name record; Record_SurfId := Record_SurfId record;
           Record_EMail := Record_EMail record |} in
      ({| wall := wall st; table := table st ++ [stored]; next_ID := next_ID st + 1;
          creates := creates st; log_lines := log_lines st; sending := sending st |},
       stored, None)
  end.

(** [log.Printf]: one line appended to the log. *)
Definition log_Printf (line : string) (st : World) : World :=
  {| wall := wall st; table := table st; next_ID := next_ID st;
     creates := creates st; log_lines := log_lines st ++ [line];
     sending := sending st |}.

(** [go func(m) { mailer.DialAndSend(m) ... }(m)]: the message is handed to
    a goroutine; the handler does not wait for it. *)
Definition go_DialAndSend (m : Message) (st : World) : World :=
  {| wall := wall st; table := table st; next_ID := next_ID st;
     creates := creates st; log_lines := log_lines st; sending := sending st ++ [m] |}.

(** ** The handler *)

(** The [Record{...}] literal of [submitHandler]: the key is left at its
    zero value, the three strings are copied from the request. *)
Definition new_record (request : Request) (now : Time) : AttendanceRecord :=
  {| Record_ID := 0; Record_When := now; Record_Name := Name request;
     Record_SurfId := SurfId request; Record_EMail := EMail request |}.

Section Handler.

(** [t.String()], which the [%s] verb of [fmt.Sprintf] prints for a
    [time.Time]. *)
Variable Time_String : Time -> string.

(** The [fmt.Sprintf] of the message body. *)
Definition confirmation_body (name : string) (when : Time) : string :=
  "Dear student " +:+ name +:+ "," +:+ newline
  +:+ newline
  +:+ "This email confirms that your presence at the course" +:+ newline
  +:+ "Privacy and Identity has been registered at: " +:+ Time_String when +:+ newline
  +:+ newline
  +:+ "With best regards," +:+ newline
  +:+ "Koning and Jacobs" +:+ newline.

(** The message [submitHandler] builds from [record]. *)
Definition confirmation (record : AttendanceRecord) : Message :=
  SetBody "text/plain" (confirmation_body (Record_Name record) (Record_When record))
    (SetHeader "Subject" "Your presence at Privacy and Identity"
       (SetHeader "To" (Record_EMail record)
          (SetHeader "From" "Privacy Seminar <no-reply@metrics.privacybydesign.foundation>"
             gomail_NewMessage))).

(** [submitHandler(w, r)]: the state and the response writer when it
    returns. *)
Definition submitHandler (conf : Conf) (env : Env) (st : World)
    (w : ResponseWriter) (r : http_Request) : World * ResponseWriter :=
  let '(w, ok) := checkAuthorization conf w r in
  if negb ok then (st, w)
  else
    let '(request, err) := json_Unmarshal (FormValue r "request") Request_zero in
    match err with
    | Some e =>
        (st, http_Error w ("Missing or malformed request form field: " +:+ Error e) 400)
    | None =>
        let '(st, now) := time_Now env st in
        let record := new_record request now in
        let '(st, record, cerr) := gorm_Create env st record in
        let st := match cerr with
                  | Some e => log_Printf ("Failed to store attendance record: " +:+ e) st
                  | None => st
                  end in
        let m := confirmation record in
        (elapse (until_return env) (go_DialAndSend m st), w)
    end.

End Handler.

Section HandlerOutcomes.

Variable Time_String : Time -> string.

(** The three ways out of [submitHandler], with what each leaves behind. *)
Inductive handled (conf : Conf) (env : Env) (st : World) (w : ResponseWriter)
    (r : http_Request) : World * ResponseWriter -> Prop :=
  | handled_rejected :
      snd (checkAuthorization conf w r) = false ->
      handled conf env st w r (st, fst (checkAuthorization conf w r))
  | handled_invalid (e : json_error) :
      snd (checkAuthorization conf w r) = true ->
      snd (json_Unmarshal (FormValue r "request") Request_zero) = Some e ->
      handled conf env st w r
        (st, http_Error w ("Missing or malformed request form field: " +:+ Error e) 400)
  | handled_accepted (request : Request) (st' : World) :
      snd (checkAuthorization conf w r) = true ->
      json_Unmarshal (FormValue r "request") Request_zero = (request, None) ->
      wall st' = wall st + Z.of_N (until_now env) + Z.of_N (until_return env) ->
      creates st'
        = creates st ++ [new_record request (wall st + Z.of_N (until_now env))] ->
      match create_error env with
      | None =>
          table st'
          = table st ++ [{| Record_ID := next_ID st;
                            Record_When := wall st + Z.of_N (until_now env);
                            Record_Name := Name request;
                            Record_SurfId := SurfId request;
                            Record_EMail := EMail request |}]
          /\ next_ID st' = next_ID st + 1
          /\ log_lines st' = log_lines st
      | Some e =>
          table st' = table st
          /\ next_ID st' = next_ID st
          /\ log_lines st' = log_lines st ++ ["Failed to store attendance record: " +:+ e]
      end ->
      sending st'
        = sending st ++ [confirmation Time_String
                           (new_record request (wall st + Z.of_N (until_now env)))] ->
      handled conf env st w r (st', w).

End HandlerOutcomes.

(** ** The handler of the earlier version

    The repository's earlier file has the same gate and the same parsing,
    names the form field "events" in its error message, ignores the result
    of [db.Create] and sends no mail. *)

Definition submitHandler_v0 (conf : Conf) (env : Env) (st : World)
    (w : ResponseWriter) (r : http_Request) : World * ResponseWriter :=
  let '(w, ok) := checkAuthorization conf w r in
  if negb ok then (st, w)
  else
    let '(request, err) := json_Unmarshal (FormValue r "request") Request_zero in
    match err with
    | Some e =>
        (st, http_Error w ("Missing or malformed events form field: " +:+ Error e) 400)
    | None =>
        let '(st, now) := time_Now env st in
        let record := new_record request now in
        let '(st, _, _) := gorm_Create env st record in
        (elapse (until_return env) st, w)
    end.

(** ** main: start-up

    What [main] does before and around serving, as the sequence of its
    observable steps.  The surroundings decide the outcome of each call
    that can fail. *)

(** [os.Stat(confPath)]: no error, an error [os.IsNotExist] recognizes, or
    another error. *)
Inductive stat_result := stat_ok | stat_not_exist | stat_other_error.

(** [flag.Parse()]: the command line parses, with the value of -config if
    it was given; or it does not, and the flag package itself prints the
    usage and calls [os.Exit] with its own code. *)
Inductive flag_result :=
  | flag_parsed (config : option string)
  | flag_exit (code : Z).

Record StartEnv := {
  flag_Parse : flag_result;
  stat_config : stat_result;
  read_config : string + string;          (* the file's bytes, or the error *)
  open_error : option string;             (* the error of gorm.Open, if any *)
  serve_error : option string             (* the error ListenAndServe returns,
                                             if it ever returns *)
}.

Inductive event :=
  | Stdout (text : string)                (* fmt.Printf, fmt.Println *)
  | Log (line : string)                   (* log.Println, log.Printf *)
  | Stat (path : string)
  | ReadFile (path : string)
  | OpenDb (path : string)                (* gorm.Open("sqlite3", path) *)
  | AutoMigrate
  | NewDialer (host : string) (port : Z)
  | ListenAndServe (addr : string) (conf : Conf)
  | CloseDb                               (* the deferred db.Close() *)
  | Exit (code : Z).                      (* os.Exit *)

(** How a function body ends: [os.Exit] stops the process at once, and
    the deferred calls run only when the function returns. *)
Inductive ending := Exits (code : Z) | Returns.

Definition finish (deferred : list event) (e : ending) (t : list event) : list event :=
  match e with
  | Exits code => t ++ [Exit code]
  | Returns => t ++ deferred
  end.

(** [log.Fatalf], [log.Fatal]: the line is logged, then [os.Exit(1)]. *)
Definition log_Fatal (line : string) (deferred : list event) (t : list event)
  : list event :=
  finish deferred (Exits 1) (t ++ [Log line]).

(** The configuration before the file is read: every field at its zero
    value but [DbPath]. *)
Definition conf_default : Conf :=
  {| AllowedAuthorizationTokens := []; BindAddr := ""; DbPath := "db.sqlite3" |}.

Definition warning_lines : list event :=
  [Log "Warning: 'allowedauthorizationtokens' is empty!";
   Log "           --- I will accept data from anyone!"].

Section Main.

(** [yaml.Unmarshal(buf, &conf)]: the configuration afterwards and the
    error, if any. *)
Variable yaml_Unmarshal : string -> Conf -> Conf * option string.

(** The configuration [main] serves with, when the file parses. *)
Definition parsed_conf (buf : string) : Conf := fst (yaml_Unmarshal buf conf_default).

(** [main()], once the command line has parsed. *)
Definition main_configured (env : StartEnv) (config : option string) : list event :=
  let confPath := default "config.yaml" config in
  let t := [Stat confPath] in
  match stat_config env with
  | stat_not_exist =>
      finish [] (Exits 1)
        (t ++ [Stdout ("Could not find config file: " +:+ confPath +:+ newline);
               Stdout ("It should look like" +:+ newline);
               Stdout newline;
               Stdout ("   bindaddr: ':9090'" +:+ newline)])
  | _ =>
      let t := t ++ [ReadFile confPath] in
      match read_config env with
      | inr e =>
          log_Fatal ("Could not read config file " +:+ confPath +:+ ": " +:+ e) [] t
      | inl buf =>
          let '(conf, yerr) := yaml_Unmarshal buf conf_default in
          match yerr with
          | Some e => log_Fatal ("Could not parse config file: " +:+ e) [] t
          | None =>
              let t := t ++ [Log "Opening database ..."; OpenDb (DbPath conf)] in
              match open_error env with
              | Some e =>
                  log_Fatal (" " +:+ DbPath conf +:+ ": could not open to: " +:+ e) [] t
              | None =>
                  let deferred := [CloseDb] in
                  let t := t ++ [Log " ok";
                                 Log "Auto-migration (if necessary) ...";
                                 AutoMigrate;
                                 Log " ok";
                                 NewDialer "localhost" 25;
                                 Log ("Listening on " +:+ BindAddr conf)] in
                  let t := if (length (AllowedAuthorizationTokens conf) =? 0)%nat
                           then t ++ warning_lines else t in
                  let t := t ++ [ListenAndServe (BindAddr conf) conf] in
                  match serve_error env with
                  | Some e => log_Fatal e deferred t
                  | None => t             (* serving goes on *)
                  end
              end
          end
      end
  end.

(** [main()] *)
Definition main (env : StartEnv) : list event :=
  match flag_Parse env with
  | flag_exit code => finish [] (Exits code) []
  | flag_parsed config => main_configured env config
  end.

End Main.

(** ** encoding/json: what an object assigns to a field *)

(** The string the members of an object leave in field [f]: that of the
    last member whose key addresses [f] and whose value is a string. *)
Definition field_eqb (f g : field) : bool :=
  match f, g with
  | field_Name, field_Name | field_SurfId, field_SurfId | field_EMail, field_EMail => true
  | _, _ => false
  end.

Definition assigns (f : field) (m : string * json) : option string :=
  match find_field (fst m), snd m with
  | Some f', JString s => if field_eqb f' f then Some s else None
  | _, _ => None
  end.

Fixpoint last_assigned (f : field) (ms : list (string * json)) : option string :=
  match ms with
  | [] => None
  | m :: rest =>
      match last_assigned f rest with
      | Some s => Some s
      | None => assigns f m
      end
  end.

(** ** Sample data

    The configuration and requests of the scenarios: one allowed token, a
    response writer nothing was written to, and requests with and without
    credentials and payload. *)

Definition conf_secret : Conf :=
  {| AllowedAuthorizationTokens := ["secrettoken"]; BindAddr := ":8080";
     DbPath := "db.sqlite3" |}.

Definition conf_open : Conf :=
  {| AllowedAuthorizationTokens := []; BindAddr := ":8080"; DbPath := "db.sqlite3" |}.

Definition w_fresh : ResponseWriter :=
  {| rw_header := ∅; rw_status := None; rw_body := "" |}.

Definition request_with (authorization : list string) (payload : list string)
  : http_Request :=
  {| Header := list_to_map ((fun v => ("Authorization", [v])) <$> authorization);
     Form := list_to_map ((fun v => ("request", [v])) <$> payload) |}.

(** The payload of the accepted scenario:
    [{"Name":"Ann","SurfId":"ann123","EMail":"ann@example.com"}]. *)
Definition quoted (s : string) : string :=
  String dquote s +:+ String dquote EmptyString.

Definition payload_ann : string :=
  "{" +:+ quoted "Name" +:+ ":" +:+ quoted "Ann" +:+ ","
      +:+ quoted "SurfId" +:+ ":" +:+ quoted "ann123" +:+ ","
      +:+ quoted "EMail" +:+ ":" +:+ quoted "ann@example.com" +:+ "}".

(** An object with one known member, one unknown member and two fields
    missing: [{"Name":"Ann","Course":"Privacy"}]. *)
Definition payload_partial : string :=
  "{" +:+ quoted "Name" +:+ ":" +:+ quoted "Ann" +:+ ","
      +:+ quoted "Course" +:+ ":" +:+ quoted "Privacy" +:+ "}".

Definition request_ann : Request :=
  {| Name := "Ann"; SurfId := "ann123"; EMail := "ann@example.com" |}.

(** An object that names one field three times:
    [{"Name":"Ann","name":"Bea","NAME":null}]. *)
Definition payload_repeated : string :=
  "{" +:+ quoted "Name" +:+ ":" +:+ quoted "Ann" +:+ ","
      +:+ quoted "name" +:+ ":" +:+ quoted "Bea" +:+ ","
      +:+ quoted "NAME" +:+ ":null}".

Definition world_empty : World :=
  {| wall := 1000; table := []; next_ID := 1; creates := []; log_lines := [];
     sending := [] |}.

Definition env_ok : Env :=
  {| until_now := 5; until_return := 7; create_error := None |}.

(** A stand-in for [t.String()]: every instant prints the same. *)
Definition Time_String_sample : Time -> string := fun _ => "2018-03-01 10:00:00 +0100 CET".

Definition env_disk_full : Env :=
  {| until_now := 5; until_return := 7; create_error := Some "disk full" |}.

(** Two configurations with the same tokens, listed differently. *)
Definition conf_two : Conf :=
  {| AllowedAuthorizationTokens := ["alpha"; "beta"]; BindAddr := ":8080";
     DbPath := "db.sqlite3" |}.

Definition conf_two_shuffled : Conf :=
  {| AllowedAuthorizationTokens := ["beta"; "alpha"; "beta"]; BindAddr := ":8080";
     DbPath := "db.sqlite3" |}.

(** A stand-in for [yaml.Unmarshal]: the empty file is an error, any other
    file sets the bind address and one token and leaves [DbPath] alone. *)
Definition yaml_sample (buf : string) (conf : Conf) : Conf * option string :=
  if String.eqb buf "" then (conf, Some "EOF")
  else ({| AllowedAuthorizationTokens := ["secrettoken"]; BindAddr := ":8080";
           DbPath := DbPath conf |}, None).

Definition start_ok : StartEnv :=
  {| flag_Parse := flag_parsed None; stat_config := stat_ok;
     read_config := inl "bindaddr: ':8080'"; open_error := None;
     serve_error := Some "listen tcp :8080: bind: address already in use" |}.

(** * Properties *)

(** ** Bytes and the constant-time comparison *)

Lemma byte_of_range (c : ascii) : 0 <= byte_of c < 256.
Proof.
  unfold byte_of. pose proof (N_ascii_bounded c). lia.
Qed.

Lemma bytes_range (s : string) : Forall (fun b => 0 <= b < 256) (bytes s).
Proof.
  induction s as [|c s IH]; simpl; constructor; auto using byte_of_range.
Qed.

Lemma byte_of_inj (c d : ascii) : byte_of c = byte_of d -> c = d.
Proof.
  unfold byte_of. intros H. apply N2Z.inj in H.
  rewrite <- (ascii_N_embedding c), <- (ascii_N_embedding d). now rewrite H.
Qed.

Lemma bytes_inj (s t : string) : bytes s = bytes t -> s = t.
Proof.
  revert t. induction s as [|c s IH]; intros [|d t]; simpl; intros H;
    try discriminate; auto.
  injection H as Hc Hs. f_equal; auto using byte_of_inj.
Qed.

Lemma small_iff_shiftr (a : Z) : 0 <= a < 256 <-> 0 <= a /\ Z.shiftr a 8 = 0.
Proof.
  rewrite Z.shiftr_div_pow2 by lia. change (2 ^ 8) with 256. split.
  - intros H. split; [lia|]. apply Z.div_small. lia.
  - intros [H0 H]. split; [exact H0|].
    apply Z.div_small_iff in H; lia.
Qed.

Lemma lor_lxor_small (v a b : Z) :
  0 <= v < 256 -> 0 <= a < 256 -> 0 <= b < 256 -> 0 <= Z.lor v (Z.lxor a b) < 256.
Proof.
  rewrite !small_iff_shiftr. intros [Hv Sv] [Ha Sa] [Hb Sb]. split.
  - apply Z.lor_nonneg. split; [exact Hv|]. apply Z.lxor_nonneg. lia.
  - rewrite Z.shiftr_lor, Z.shiftr_lxor, Sv, Sa, Sb. reflexivity.
Qed.

Lemma ctc_accumulate_small (x y : list Z) (v : Z) :
  0 <= v < 256 ->
  Forall (fun b => 0 <= b < 256) x -> Forall (fun b => 0 <= b < 256) y ->
  0 <= ctc_accumulate v x y < 256.
Proof.
  intros Hv Hx. revert v y Hv.
  induction Hx as [|a x Ha Hx IH]; intros v y Hv Hy; simpl; [exact Hv|].
  destruct Hy as [|b y Hb Hy]; [exact Hv|].
  apply IH; auto using lor_lxor_small.
Qed.

Lemma ctc_accumulate_zero (x y : list Z) (v : Z) :
  length x = length y ->
  (ctc_accumulate v x y = 0 <-> v = 0 /\ x = y).
Proof.
  revert v y. induction x as [|a x IH]; intros v [|b y] Hlen; simpl in *;
    try discriminate.
  - intuition.
  - injection Hlen as Hlen. rewrite (IH _ _ Hlen), Z.lor_eq_0_iff, Z.lxor_eq_0_iff.
    split.
    + intros [[Hv Hab] Hxy]. subst. auto.
    + intros [Hv Hxy]. injection Hxy as Hab Hxy. auto.
Qed.

Lemma ConstantTimeByteEq_zero (v : Z) :
  0 <= v < 256 -> (subtle_ConstantTimeByteEq v 0 = 1 <-> v = 0).
Proof.
  intros Hv. unfold subtle_ConstantTimeByteEq.
  rewrite Z.lxor_0_r, Z.shiftr_div_pow2 by lia. split.
  - intros H. destruct (Z.eq_dec v 0) as [|Hne]; [assumption|exfalso].
    rewrite Z.mod_small in H by lia. rewrite Z.div_small in H by lia. discriminate.
  - intros ->. reflexivity.
Qed.

(** On byte slices the comparison answers 1 exactly for equal slices. *)
Lemma ConstantTimeCompare_spec (x y : list Z) :
  Forall (fun b => 0 <= b < 256) x -> Forall (fun b => 0 <= b < 256) y ->
  (subtle_ConstantTimeCompare x y = 1 <-> x = y).
Proof.
  intros Hx Hy. unfold subtle_ConstantTimeCompare.
  destruct (Nat.eqb_spec (length x) (length y)) as [Hlen|Hlen]; simpl.
  - rewrite ConstantTimeByteEq_zero by (apply ctc_accumulate_small; auto; lia).
    rewrite (ctc_accumulate_zero _ _ _ Hlen). intuition.
  - split; [discriminate|]. intros ->. contradiction.
Qed.

(** The loop over the allow-list succeeds exactly when the presented
    token is one of the entries, byte for byte. *)
Lemma token_allowed_spec (token : string) (allowed : list string) :
  token_allowed (bytes token) allowed = true <-> token ∈ allowed.
Proof.
  induction allowed as [|okToken rest IH]; simpl.
  - split; [discriminate|]. intros H. inversion H.
  - destruct (Z.eqb_spec (subtle_ConstantTimeCompare (bytes token) (bytes okToken)) 1)
      as [Heq|Hne].
    + apply ConstantTimeCompare_spec in Heq; auto using bytes_range.
      apply bytes_inj in Heq. subst. split; [intros _; constructor|reflexivity].
    + rewrite IH. split.
      * intros H. now constructor.
      * intros H. inversion H; subst; [|assumption].
        exfalso. apply Hne. apply ConstantTimeCompare_spec; auto using bytes_range.
Qed.

(** ** Splitting the header *)

Lemma append_String (c : ascii) (s t : string) : String c s +:+ t = String c (s +:+ t).
Proof. reflexivity. Qed.

Lemma append_Empty (t : string) : "" +:+ t = t.
Proof. reflexivity. Qed.

Lemma length_append (s t : string) :
  String.length (s +:+ t) = (String.length s + String.length t)%nat.
Proof.
  induction s as [|c s IH]; [reflexivity|].
  rewrite append_String. simpl. rewrite IH. reflexivity.
Qed.

(** Two strings that agree after the same text is appended are equal. *)
Lemma append_inj_r (s1 s2 t : string) : s1 +:+ t = s2 +:+ t -> s1 = s2.
Proof.
  revert s2. induction s1 as [|c s1 IH]; intros [|d s2] H.
  - reflexivity.
  - exfalso. apply (f_equal String.length) in H.
    rewrite append_Empty, append_String in H. simpl in H.
    rewrite length_append in H. lia.
  - exfalso. apply (f_equal String.length) in H.
    rewrite append_Empty, append_String in H. simpl in H.
    rewrite length_append in H. lia.
  - rewrite !append_String in H. injection H as -> H. f_equal. apply IH, H.
Qed.

Lemma HasPrefix_split (s prefix : string) :
  strings_HasPrefix s prefix = true -> s = prefix +:+ slice_from (len prefix) s.
Proof.
  revert s. induction prefix as [|p prefix IH]; intros s; simpl.
  - intros _. rewrite append_Empty. now destruct s.
  - destruct s as [|c s]; simpl; [discriminate|].
    destruct (Ascii.eqb_spec p c) as [->|]; [|discriminate].
    intros H. rewrite append_String. f_equal. now apply IH.
Qed.

Lemma Index_unfold (s sep : string) :
  strings_Index s sep =
  if strings_HasPrefix s sep then Some O
  else match s with
       | EmptyString => None
       | String _ s' => S <$> strings_Index s' sep
       end.
Proof. destruct s; reflexivity. Qed.

Lemma Index_split (s sep : string) (m : nat) :
  strings_Index s sep = Some m ->
  s = slice_to m s +:+ sep +:+ slice_from (m + len sep) s.
Proof.
  revert m. induction s as [|c s IH]; intros m; rewrite Index_unfold;
    destruct (strings_HasPrefix _ sep) eqn:E; try discriminate.
  - intros [= <-]. apply HasPrefix_split in E. exact E.
  - intros [= <-]. apply HasPrefix_split in E. exact E.
  - destruct (strings_Index s sep) as [k|] eqn:Ek; [|discriminate].
    intros [= <-]. simpl. rewrite append_String. f_equal. now apply IH.
Qed.

(** A header that passes the shape test of [checkAuthorization] is the
    word Basic, one space, and the token. *)
Lemma SplitN_Basic_inv (h : string) :
  let auth := strings_SplitN h " " 2 in
  length auth = 2%nat -> nth 0 auth "" = "Basic" -> h = "Basic " +:+ nth 1 auth "".
Proof.
  unfold strings_SplitN. destruct (len h) as [|n]; simpl; [discriminate|].
  destruct (strings_Index h " ") as [m|] eqn:E; simpl; [|discriminate].
  intros _ Hb. apply Index_split in E. rewrite Hb in E. exact E.
Qed.

Lemma SplitN_Basic (token : string) :
  strings_SplitN ("Basic " +:+ token) " " 2 = ["Basic"; token].
Proof. reflexivity. Qed.

(** ** The authorization gate *)

Lemma http_Error_status (w : ResponseWriter) (error : string) (code : Z) :
  rw_status w = None -> response_status (http_Error w error code) = code.
Proof.
  intros H. unfold http_Error, response_status, Write, WriteHeader, Header_Set.
  simpl. rewrite H. reflexivity.
Qed.

(** A call that returns true has written nothing. *)
Lemma checkAuthorization_true_silent (conf : Conf) (w : ResponseWriter) (r : http_Request) :
  snd (checkAuthorization conf w r) = true -> checkAuthorization conf w r = (w, true).
Proof.
  unfold checkAuthorization.
  repeat match goal with |- context [if ?b then _ else _] => destruct b end;
    simpl; intros H; try discriminate; reflexivity.
Qed.

Lemma allow_list_nonempty (conf : Conf) :
  AllowedAuthorizationTokens conf <> [] ->
  (length (AllowedAuthorizationTokens conf) =? 0)%nat = false.
Proof.
  destruct (AllowedAuthorizationTokens conf); [contradiction|reflexivity].
Qed.

(** C1. With an empty allow-list, [checkAuthorization] returns true for
    every request, whatever its Authorization header, and leaves the
    response writer as it found it. *)
Theorem checkAuthorization_open_access (conf : Conf) (w : ResponseWriter) (r : http_Request) :
  AllowedAuthorizationTokens conf = [] ->
  checkAuthorization conf w r = (w, true).
Proof.
  intros H. unfold checkAuthorization. rewrite H. reflexivity.
Qed.

Lemma checkAuthorization_open_access_witness :
  checkAuthorization conf_open w_fresh (request_with [] []) = (w_fresh, true)
  /\ checkAuthorization conf_open w_fresh (request_with ["Bearer nonsense"] [])
     = (w_fresh, true).
Proof.
  split; apply checkAuthorization_open_access; reflexivity.
Defined.

(** C2. With a non-empty allow-list, a request whose Authorization header
    is the word Basic, one space and a token that is one of the entries,
    byte for byte, is allowed: [checkAuthorization] returns true and the
    response writer is untouched. *)
Theorem checkAuthorization_allows_listed_token
    (conf : Conf) (w : ResponseWriter) (r : http_Request) (token : string) :
  AllowedAuthorizationTokens conf <> [] ->
  Header_Get (Header r) "Authorization" = "Basic " +:+ token ->
  token ∈ AllowedAuthorizationTokens conf ->
  checkAuthorization conf w r = (w, true).
Proof.
  intros Hne Hh Hin. unfold checkAuthorization.
  rewrite (allow_list_nonempty _ Hne), Hh, SplitN_Basic. simpl.
  apply token_allowed_spec in Hin. rewrite Hin. reflexivity.
Qed.

Lemma checkAuthorization_allows_listed_token_witness :
  checkAuthorization conf_secret w_fresh (request_with ["Basic secrettoken"] [])
  = (w_fresh, true).
Proof.
  apply (checkAuthorization_allows_listed_token conf_secret w_fresh _ "secrettoken").
  - discriminate.
  - reflexivity.
  - constructor.
Defined.

(** C3. With a non-empty allow-list and a writer nothing was written to:
    a request whose Authorization header is missing, or is not the word
    Basic (in this case exactly), one space and a token, is answered with
    status 400 and false; a request whose header has that form but whose
    token is no entry of the allow-list is answered with status 401 and
    false.  The token is whatever follows the first space, the empty
    string included.  The two answers differ in status and in message. *)
Theorem checkAuthorization_rejections
    (conf : Conf) (w : ResponseWriter) (r : http_Request) :
  AllowedAuthorizationTokens conf <> [] ->
  rw_status w = None ->
  let h := Header_Get (Header r) "Authorization" in
  let malformed := http_Error w "Bad or missing Authorization header" StatusBadRequest in
  let denied := http_Error w "Access denied" StatusUnauthorized in
  (Header r !! "Authorization" = None -> forall token, h <> "Basic " +:+ token)
  /\ ((forall token, h <> "Basic " +:+ token) ->
      checkAuthorization conf w r = (malformed, false))
  /\ (forall token, h = "Basic " +:+ token ->
      token ∉ AllowedAuthorizationTokens conf ->
      checkAuthorization conf w r = (denied, false))
  /\ response_status malformed = 400
  /\ response_status denied = 401
  /\ rw_body malformed <> rw_body denied.
Proof.
  intros Hne Hw h malformed denied. split; [|split; [|split; [|split; [|split]]]].
  - intros Habsent token. subst h. unfold Header_Get. rewrite Habsent. discriminate.
  - intros Hform. unfold checkAuthorization. rewrite (allow_list_nonempty _ Hne).
    fold h.
    destruct (Nat.eqb_spec (length (strings_SplitN h " " 2)) 2) as [Hlen|]; [|reflexivity].
    destruct (String.eqb_spec (nth 0 (strings_SplitN h " " 2) "") "Basic") as [Hb|];
      [|reflexivity].
    exfalso. exact (Hform _ (SplitN_Basic_inv h Hlen Hb)).
  - intros token Hh Hnot. unfold checkAuthorization.
    rewrite (allow_list_nonempty _ Hne). fold h. rewrite Hh, SplitN_Basic. simpl.
    destruct (token_allowed (bytes token) (AllowedAuthorizationTokens conf)) eqn:E;
      [|reflexivity].
    apply token_allowed_spec in E. contradiction.
  - apply http_Error_status, Hw.
  - apply http_Error_status, Hw.
  - subst malformed denied. unfold http_Error, Write, WriteHeader, Header_Set. simpl.
    rewrite Hw. simpl. intros H. apply (inj (String.append (rw_body w))) in H.
    discriminate.
Qed.

Lemma checkAuthorization_rejections_witness :
  checkAuthorization conf_secret w_fresh (request_with [] [])
  = (http_Error w_fresh "Bad or missing Authorization header" 400, false)
  /\ checkAuthorization conf_secret w_fresh (request_with ["basic secrettoken"] [])
     = (http_Error w_fresh "Bad or missing Authorization header" 400, false)
  /\ checkAuthorization conf_secret w_fresh (request_with ["Basic wrongtoken"] [])
     = (http_Error w_fresh "Access denied" 401, false).
Proof.
  split; [|split].
  - apply (checkAuthorization_rejections conf_secret w_fresh (request_with [] []));
      [discriminate|reflexivity|].
    intros token. discriminate.
  - apply (checkAuthorization_rejections conf_secret w_fresh
             (request_with ["basic secrettoken"] [])); [discriminate|reflexivity|].
    intros token. discriminate.
  - apply (checkAuthorization_rejections conf_secret w_fresh
             (request_with ["Basic wrongtoken"] []) ltac:(discriminate) eq_refl)
      with (token := "wrongtoken"); [reflexivity|].
    intros H. apply list_elem_of_singleton in H. discriminate.
Defined.

(** ** The decoder follows the scanner *)

Lemma high_byte_plain (c : ascii) :
  128 <= byte_of c -> string_delta stInString c = Some stInString.
Proof.
  intros H. unfold string_delta.
  destruct (Ascii.eqb_spec c dquote) as [->|_]; [change (128 <= 34) in H; lia|].
  destruct (Ascii.eqb_spec c backslash) as [->|_]; [change (128 <= 92) in H; lia|].
  destruct (Z.ltb_spec (byte_of c) 32); [lia|reflexivity].
Qed.

Lemma is_cont_high (lo hi : Z) (c : ascii) :
  128 <= lo -> is_cont lo hi c = true -> 128 <= byte_of c.
Proof. unfold is_cont. intros Hlo H. apply andb_true_iff in H as [H _]. lia. Qed.

Lemma string_run_high (c : ascii) (rest : string) :
  128 <= byte_of c ->
  string_run stInString (String c rest) = string_run stInString rest.
Proof.
  intros H.
  change (string_run stInString (String c rest))
    with (match string_delta stInString c with
          | Some st' => string_run st' rest
          | None => None
          end).
  rewrite (high_byte_plain c H). reflexivity.
Qed.

Lemma DecodeRune_skips_plain (c : ascii) (rest : string) (rr : Z) (size : nat) :
  utf8_DecodeRune (String c rest) = (rr, size) ->
  string_run stInString rest = Some stInString ->
  string_run stInString (slice_from (size - 1) rest) = Some stInString.
Proof.
  unfold utf8_DecodeRune.
  set (p0 := byte_of c).
  set (lo := if p0 =? 224 then 160 else if p0 =? 240 then 144 else 128).
  set (hi := if p0 =? 237 then 159 else if p0 =? 244 then 143 else 191).
  assert (Hlo : 128 <= lo) by (subst lo; repeat case_match; lia).
  intros H Hrun.
  repeat match type of H with
  | (if ?b then _ else _) = _ => destruct b eqn:?
  | (match ?r with EmptyString => _ | String _ _ => _ end) = _ => destruct r
  end; injection H as <- <-; simpl; try exact Hrun;
  repeat match goal with
  | E : negb (is_cont _ _ _) = false |- _ =>
      apply negb_false_iff in E; apply is_cont_high in E; [|lia]
  end;
  repeat (rewrite string_run_high in Hrun by assumption); exact Hrun.
Qed.

Lemma hexval_isHex (c : ascii) : isHex c = true <-> is_Some (hexval c).
Proof.
  unfold isHex, hexval.
  destruct (in_range "0" "9" c), (in_range "a" "f" c), (in_range "A" "F" c); simpl;
    split; intros H; try reflexivity; try discriminate; eauto;
    destruct H as [? [=]].
Qed.

Lemma string_run_cons (st : scan_step) (c : ascii) (rest : string) :
  string_run st (String c rest)
  = match string_delta st c with
    | Some st' => string_run st' rest
    | None => None
    end.
Proof. reflexivity. Qed.

Lemma string_run_u4 (h1 h2 h3 h4 : ascii) (rest : string) :
  isHex h1 = true -> isHex h2 = true -> isHex h3 = true -> isHex h4 = true ->
  string_run stInString
    (String backslash (String "u" (String h1 (String h2 (String h3 (String h4 rest))))))
  = string_run stInString rest.
Proof.
  intros H1 H2 H3 H4.
  rewrite string_run_cons.
  change (string_delta stInString backslash) with (Some stInStringEsc). cbv beta iota.
  rewrite string_run_cons.
  change (string_delta stInStringEsc "u") with (Some stInStringEscU). cbv beta iota.
  rewrite string_run_cons. unfold string_delta at 1. rewrite H1.
  rewrite string_run_cons. unfold string_delta at 1. rewrite H2.
  rewrite string_run_cons. unfold string_delta at 1. rewrite H3.
  rewrite string_run_cons. unfold string_delta at 1. rewrite H4.
  reflexivity.
Qed.

Lemma getu4_inv (s : string) (r : Z) :
  getu4 s = Some r ->
  exists h1 h2 h3 h4 rest,
    s = String backslash (String "u" (String h1 (String h2 (String h3 (String h4 rest)))))
    /\ isHex h1 = true /\ isHex h2 = true /\ isHex h3 = true /\ isHex h4 = true.
Proof.
  unfold getu4.
  destruct s as [|b [|u [|h1 [|h2 [|h3 [|h4 rest]]]]]]; try discriminate.
  destruct (Ascii.eqb_spec b backslash) as [->|]; [|discriminate].
  destruct (Ascii.eqb_spec u "u") as [->|]; [|discriminate]. simpl.
  destruct (hexval h1) eqn:E1; [|discriminate].
  destruct (hexval h2) eqn:E2; [|discriminate].
  destruct (hexval h3) eqn:E3; [|discriminate].
  destruct (hexval h4) eqn:E4; [|discriminate].
  intros _. exists h1, h2, h3, h4, rest.
  repeat split; apply hexval_isHex; eauto.
Qed.

Lemma getu4_hex (h1 h2 h3 h4 : ascii) (rest : string) :
  isHex h1 = true -> isHex h2 = true -> isHex h3 = true -> isHex h4 = true ->
  is_Some (getu4 (String backslash (String "u"
                    (String h1 (String h2 (String h3 (String h4 rest))))))).
Proof.
  intros H1 H2 H3 H4. unfold getu4.
  change (Ascii.eqb backslash backslash && Ascii.eqb "u" "u") with true. cbv iota.
  apply hexval_isHex in H1 as [? ->], H2 as [? ->], H3 as [? ->], H4 as [? ->].
  eauto.
Qed.

Lemma unquote_at_simple (e : ascii) (rest : string) :
  is_simple_escape e = true ->
  exists out, unquote_at (String backslash (String e rest)) = Some (out, 2%nat).
Proof.
  unfold is_simple_escape, unquote_at.
  change (Ascii.eqb backslash backslash) with true. cbv iota.
  repeat match goal with
  | |- context [Ascii.eqb e ?x] => destruct (Ascii.eqb e x) eqn:?
  end; simpl; intros H; try discriminate; eauto.
Qed.

Lemma unquote_at_u (rest : string) :
  unquote_at (String backslash (String "u" rest))
  = let s := String backslash (String "u" rest) in
    match getu4 s with
    | None => None
    | Some rr =>
        if utf16_IsSurrogate rr then
          let dec := match getu4 (slice_from 6 s) with
                     | Some rr1 => utf16_DecodeRune rr rr1
                     | None => RuneError
                     end in
          if negb (dec =? RuneError) then Some (utf8_EncodeRune dec, 12%nat)
          else Some (utf8_EncodeRune RuneError, 6%nat)
        else Some (utf8_EncodeRune rr, 6%nat)
    end.
Proof. reflexivity. Qed.

Lemma string_run_hex4_inv (rest : string) :
  string_run stInStringEscU rest = Some stInString ->
  exists h1 h2 h3 h4 rest',
    rest = String h1 (String h2 (String h3 (String h4 rest')))
    /\ isHex h1 = true /\ isHex h2 = true /\ isHex h3 = true /\ isHex h4 = true
    /\ string_run stInString rest' = Some stInString.
Proof.
  intros H.
  destruct rest as [|h1 [|h2 [|h3 [|h4 rest']]]];
    repeat (cbn [string_run string_delta] in H;
            match type of H with
            | context [isHex ?h] => destruct (isHex h) eqn:?
            end);
    cbn [string_run string_delta] in H; try discriminate.
  exists h1, h2, h3, h4, rest'. auto 10.
Qed.

(** Where the scanner accepts the rest of a string body, one turn of the
    copying loop succeeds and stops at a point from which the scanner
    accepts what is left. *)
Lemma unquote_at_ok (c : ascii) (rest : string) :
  string_run stInString (String c rest) = Some stInString ->
  exists out size,
    unquote_at (String c rest) = Some (out, size)
    /\ string_run stInString (slice_from (size - 1) rest) = Some stInString.
Proof.
  rewrite string_run_cons. unfold string_delta at 1.
  destruct (Ascii.eqb_spec c dquote) as [->|Hq]; [discriminate|].
  destruct (Ascii.eqb_spec c backslash) as [->|Hb].
  - (* an escape *)
    destruct rest as [|e rest1]; [discriminate|].
    rewrite string_run_cons. unfold string_delta at 1.
    destruct (is_simple_escape e) eqn:Es.
    { intros Hrun. destruct (unquote_at_simple e rest1 Es) as [out ->].
      exists out, 2%nat. split; [reflexivity|exact Hrun]. }
    destruct (Ascii.eqb_spec e "u") as [->|]; [|discriminate].
    intros Hrun. rewrite unquote_at_u. cbv zeta.
    apply string_run_hex4_inv in Hrun
      as (h1 & h2 & h3 & h4 & rest2 & -> & H1 & H2 & H3 & H4 & Hrun).
    set (s := String backslash (String "u"
                (String h1 (String h2 (String h3 (String h4 rest2)))))).
    destruct (getu4_hex h1 h2 h3 h4 rest2) as [rr Hrr]; auto. fold s in Hrr.
    rewrite Hrr.
    destruct (utf16_IsSurrogate rr); [|simpl; eauto].
    change (slice_from 6 s) with rest2.
    destruct (getu4 rest2) as [rr1|] eqn:E1; [|simpl; eauto].
    destruct (negb (utf16_DecodeRune rr rr1 =? RuneError)); [|simpl; eauto].
    apply getu4_inv in E1 as (l1 & l2 & l3 & l4 & rest3 & -> & L1 & L2 & L3 & L4).
    rewrite string_run_u4 in Hrun by assumption. simpl. eauto.
  - destruct (Z.ltb_spec (byte_of c) 32) as [|Hctl]; [discriminate|].
    intros Hrun. unfold unquote_at.
    destruct (Ascii.eqb_spec c backslash) as [|_]; [contradiction|].
    destruct (Ascii.eqb_spec c dquote) as [|_]; [contradiction|].
    destruct (Z.ltb_spec (byte_of c) 32) as [|_]; [lia|]. cbv iota. simpl orb. cbv iota.
    destruct (Z.ltb_spec (byte_of c) 128) as [|Hhigh]; [simpl; eauto|].
    destruct (utf8_DecodeRune (String c rest)) as [rr size] eqn:E.
    exists (utf8_EncodeRune rr), size. split; [reflexivity|].
    exact (DecodeRune_skips_plain c rest rr size E Hrun).
Qed.

(** The copying loop succeeds on every string body the scanner accepts. *)
Lemma unquote_loop_ok (body : string) (skip : nat) :
  string_run stInString (slice_from skip body) = Some stInString ->
  is_Some (unquote_loop skip body).
Proof.
  revert skip. induction body as [|c rest IH]; intros skip Hrun.
  - destruct skip; simpl; eauto.
  - destruct skip as [|k].
    + change (slice_from 0 (String c rest)) with (String c rest) in Hrun.
      destruct (unquote_at_ok c rest Hrun) as (out & size & Hat & Hrest).
      destruct (IH _ Hrest) as [t Ht].
      cbn [unquote_loop]. rewrite Hat, Ht. simpl. eauto.
    + apply IH, Hrun.
Qed.

Lemma drop_last_snoc (body : string) (c : ascii) :
  drop_last (body +:+ String c EmptyString) = body.
Proof.
  induction body as [|d body IH]; [reflexivity|].
  rewrite append_String. cbn [drop_last]. rewrite IH.
  destruct body; reflexivity.
Qed.

Lemma last_is_snoc (body : string) (c : ascii) :
  last_is c (body +:+ String c EmptyString) = true.
Proof.
  induction body as [|d body IH].
  - simpl. apply Ascii.eqb_refl.
  - rewrite append_String. cbn [last_is]. rewrite IH.
    destruct body; reflexivity.
Qed.

(** A quoted literal the scanner went through has a value. *)
Lemma unquoteBytes_ok (body : string) :
  string_run stInString body = Some stInString ->
  is_Some (unquoteBytes (String dquote (body +:+ String dquote EmptyString))).
Proof.
  intros Hrun. unfold unquoteBytes.
  rewrite Ascii.eqb_refl, last_is_snoc, drop_last_snoc. simpl.
  apply unquote_loop_ok. exact Hrun.
Qed.

Lemma scanner_error_outcome (s : scanner) (c : ascii) (context : string) (b : builder) :
  outcome (fst (scanner_error s c context)) (snd (scanner_error s c context)) b.
Proof. simpl. discriminate. Qed.

Lemma value_of_literal_other (c : ascii) (rest : string) :
  Ascii.eqb c dquote = false -> is_Some (value_of_literal (String c rest)).
Proof.
  intros H. unfold value_of_literal. rewrite H.
  repeat match goal with |- context [if ?x then _ else _] => destruct x end; eauto.
Qed.

Lemma close_at_hand (ps : list parse_state) (b : builder) :
  at_hand ps b ->
  exists v, close_literal b
            = {| lit := None; done := Some v; frames := frames b; in_sync := in_sync b |}
            /\ is_key ps v.
Proof.
  unfold at_hand, close_literal. destruct b as [l d fs sy]; simpl.
  destruct l as [item|], d as [v|]; try contradiction.
  - intros (v & -> & Hk). eauto.
  - intros Hk. eauto.
Qed.

Lemma close_nothing (b : builder) : nothing_read b -> close_literal b = b.
Proof. intros [H _]. unfold close_literal. rewrite H. reflexivity. Qed.

Lemma frame_fits_key (f : frame) :
  frame_fits parseObjectKey f -> exists ms, f = ObjectFrame ms None.
Proof. destruct f as [|ms [k|]]; simpl; try contradiction; eauto. Qed.

Lemma frame_fits_value (f : frame) :
  frame_fits parseObjectValue f -> exists ms k, f = ObjectFrame ms (Some k).
Proof. destruct f as [|ms [k|]]; simpl; try contradiction; eauto. Qed.

Lemma frame_fits_array (f : frame) :
  frame_fits parseArrayValue f -> exists es, f = ArrayFrame es.
Proof. destruct f as [|ms [k|]]; simpl; try contradiction; eauto. Qed.

Lemma awaits_key_below (ps : list parse_state) :
  Forall (fun p => p <> parseObjectKey) ps -> awaits_key ps = false.
Proof. intros [|p ps' Hp _]; [reflexivity|]. destruct p; [contradiction|reflexivity..]. Qed.

Lemma Forall_tail {A} (P : A -> Prop) (l : list A) : Forall P l -> Forall P (tail l).
Proof. intros [|x l' _ H]; simpl; auto. Qed.

Ltac inv_intro :=
  constructor; simpl; auto; try discriminate;
  try solve [unfold step_inv, at_hand, nothing_read, is_key in *; simpl in *; eauto];
  try solve [constructor; simpl; auto].

Lemma stateEndValue_outcome (s : scanner) (b : builder) (c : ascii) :
  err s = None -> in_sync b = true ->
  Forall2 frame_fits (parseState s) (frames b) ->
  Forall (fun p => p <> parseObjectKey) (tail (parseState s)) ->
  endTop s = false ->
  at_hand (parseState s) b ->
  outcome (fst (stateEndValue s c)) (snd (stateEndValue s c))
    (feed b c (snd (stateEndValue s c))).
Proof.
  intros Herr Hsync Hframes Hbelow Htop Hhand.
  destruct (close_at_hand _ _ Hhand) as (v & Hclose & Hkey).
  destruct s as [st et ps er nb], b as [l d fs sy]. simpl in *. subst er et sy.
  unfold stateEndValue. simpl.
  inversion Hframes as [|p f ps' fs' Hf Hfs]; subst.
  - (* the top-level value ends here *)
    unfold stateEndTop. destruct (isSpace c); simpl.
    + right. unfold feed. rewrite Hclose. inv_intro.
    + left. split; [discriminate|reflexivity].
  - simpl in Hbelow. destruct (isSpace c).
    { simpl. right. unfold feed. rewrite Hclose. inv_intro. }
    assert (Hpop : forall v' fs'', Forall2 frame_fits ps' fs'' ->
              inv (popParseState {| step := st; endTop := false; parseState := p :: ps';
                                    err := None; scan_bytes := nb |})
                  {| lit := None; done := Some v'; frames := fs''; in_sync := true |}).
    { intros v' fs'' Hfit. unfold popParseState. simpl.
      inversion Hfit; subst; inv_intro;
        try solve [apply (Forall_tail _ _ Hbelow)];
        unfold step_inv, at_hand, is_key; simpl;
        [split; [reflexivity|intros [=]]|].
      apply Forall_cons in Hbelow as [Hq _].
      match goal with |- context [match ?q with _ => _ end] => destruct q end;
        [contradiction|intros [=]..]. }
    destruct p.
    + destruct (Ascii.eqb c ":"); [|exact (scanner_error_outcome _ _ _ _)].
      simpl. right. unfold feed. rewrite Hclose. simpl.
      destruct (Hkey eq_refl) as [k ->].
      destruct (frame_fits_key _ Hf) as [ms ->]. inv_intro.
    + destruct (frame_fits_value _ Hf) as (ms & k & ->).
      destruct (Ascii.eqb c ",").
      { simpl. right. unfold feed. rewrite Hclose. simpl. inv_intro. }
      destruct (Ascii.eqb c "}"); [|exact (scanner_error_outcome _ _ _ _)].
      simpl. right. unfold feed. rewrite Hclose. simpl. apply Hpop, Hfs.
    + destruct (frame_fits_array _ Hf) as (es & ->).
      destruct (Ascii.eqb c ",").
      { simpl. right. unfold feed. rewrite Hclose. simpl. inv_intro. }
      destruct (Ascii.eqb c "]"); [|exact (scanner_error_outcome _ _ _ _)].
      simpl. right. unfold feed. rewrite Hclose. simpl. apply Hpop, Hfs.
Qed.

Lemma stateBeginValue_outcome (s : scanner) (b : builder) (c : ascii) :
  inv s b -> endTop s = false ->
  nothing_read b -> awaits_key (parseState s) = false ->
  outcome (fst (stateBeginValue s c)) (snd (stateBeginValue s c))
    (feed b c (snd (stateBeginValue s c))).
Proof.
  intros Hinv Htop Hnothing Hkey.
  pose proof Hinv as [Herr Hsync Hframes Hbelow _ _].
  assert (Hdeeper : Forall (fun p => p <> parseObjectKey) (parseState s)).
  { destruct (parseState s) as [|p ps]; [constructor|]. constructor; [|exact Hbelow].
    destruct p; [discriminate|discriminate..]. }
  unfold stateBeginValue.
  destruct (isSpace c).
  { simpl. right. rewrite (close_nothing b Hnothing). exact Hinv. }
  destruct s as [st et ps er nb], b as [l d fs sy].
  destruct Hnothing as [Hl Hd]. simpl in *. subst.
  destruct (Ascii.eqb c "{").
  { unfold pushParseState. simpl.
    destruct (_ <=? maxNestingDepth); [|exact (scanner_error_outcome _ _ _ _)].
    simpl. right. inv_intro. }
  destruct (Ascii.eqb c "[").
  { unfold pushParseState. simpl.
    destruct (_ <=? maxNestingDepth); [|exact (scanner_error_outcome _ _ _ _)].
    simpl. right. inv_intro; unfold step_inv, nothing_read; simpl; eauto. }
  destruct (Ascii.eqb_spec c dquote) as [->|Hq].
  { simpl. right. inv_intro; unfold step_inv; simpl; exists EmptyString; auto. }
  apply Ascii.eqb_neq in Hq.
  repeat match goal with
  | |- context [if ?x then _ else _] => destruct x
  end; try exact (scanner_error_outcome _ _ _ _);
    simpl; right; inv_intro; unfold step_inv, in_literal; simpl; eauto 10.
Qed.

Lemma stateBeginString_outcome (s : scanner) (b : builder) (c : ascii) :
  inv s b -> endTop s = false ->
  nothing_read b ->
  outcome (fst (stateBeginString s c)) (snd (stateBeginString s c))
    (feed b c (snd (stateBeginString s c))).
Proof.
  intros Hinv Htop Hnothing.
  pose proof Hinv as [Herr Hsync Hframes Hbelow _ _].
  unfold stateBeginString.
  destruct (isSpace c).
  { simpl. right. rewrite (close_nothing b Hnothing). exact Hinv. }
  destruct s as [st et ps er nb], b as [l d fs sy].
  destruct Hnothing as [Hl Hd]. simpl in *. subst.
  destruct (Ascii.eqb_spec c dquote) as [->|Hq];
    [|exact (scanner_error_outcome _ _ _ _)].
  simpl. right. inv_intro; unfold step_inv; simpl; exists EmptyString; auto.
Qed.

Lemma inv_count_byte (s : scanner) (b : builder) : inv s b -> inv (count_byte s) b.
Proof. intros [? ? ? ? ? ?]. constructor; assumption. Qed.

Lemma inv_not_top (s : scanner) (b : builder) :
  inv s b -> step s <> stEndTop -> endTop s = false.
Proof.
  intros [_ _ _ _ Htop _] Hstep. destruct (endTop s); [|reflexivity].
  exfalso. auto.
Qed.

Lemma pop_inv (s : scanner) (p : parse_state) (ps : list parse_state)
    (v : json) (fs : list frame) :
  err s = None -> endTop s = false -> parseState s = p :: ps ->
  Forall (fun q => q <> parseObjectKey) ps ->
  Forall2 frame_fits ps fs ->
  inv (popParseState s) {| lit := None; done := Some v; frames := fs; in_sync := true |}.
Proof.
  intros Herr Htop Hps Hbelow Hfit. unfold popParseState. rewrite Hps. simpl.
  inversion Hfit as [|q f qs fs' Hq Hqs]; subst.
  - constructor; simpl; auto.
    unfold step_inv, at_hand, is_key. simpl. split; [reflexivity|intros [=]].
  - apply Forall_cons in Hbelow as [Hne Hrest]. constructor; simpl; auto.
    + rewrite Htop. intros [=].
    + unfold step_inv, at_hand, is_key. simpl.
      destruct q; [contradiction|intros [=]..].
Qed.

Lemma literal_goto (s : scanner) (b : builder) (st' : scan_step) (c : ascii) :
  inv s b -> in_literal s b -> endTop s = false -> is_literal_state st' = true ->
  inv (goto st' s) (feed b c scanContinue).
Proof.
  intros [Herr Hsync Hframes Hbelow _ _] (c0 & rest & Hl & Hq & Hd & Hk) Htop Hst.
  destruct s as [st et ps er nb], b as [l d fs sy]. simpl in *. subst.
  constructor; simpl; auto.
  - intros [=].
  - unfold step_inv. simpl.
    destruct st'; try discriminate; simpl;
      try (exists c0, (rest +:+ String c EmptyString); auto).
    unfold at_hand. simpl.
    destruct (value_of_literal_other c0 (rest +:+ String c EmptyString) Hq) as [v Hv].
    exists v. split; [exact Hv|]. unfold is_key. rewrite Hk. intros [=].
Qed.

Lemma literal_end (s : scanner) (b : builder) (c : ascii) :
  inv s b -> in_literal s b -> endTop s = false ->
  outcome (fst (stateEndValue s c)) (snd (stateEndValue s c))
    (feed b c (snd (stateEndValue s c))).
Proof.
  intros [Herr Hsync Hframes Hbelow _ _] (c0 & rest & Hl & Hq & Hd & Hk) Htop.
  apply stateEndValue_outcome; auto.
  unfold at_hand. rewrite Hl, Hd.
  destruct (value_of_literal_other c0 rest Hq) as [v Hv].
  exists v. split; [exact Hv|]. unfold is_key. rewrite Hk. intros [=].
Qed.

Lemma string_run_snoc (st : scan_step) (body : string) (c : ascii) :
  string_run st (body +:+ String c EmptyString)
  = match string_run st body with
    | Some st' => string_delta st' c
    | None => None
    end.
Proof.
  revert st. induction body as [|d body IH]; intros st.
  - rewrite append_Empty. simpl. destruct (string_delta st c); reflexivity.
  - rewrite append_String, !string_run_cons. destruct (string_delta st d); auto.
Qed.

Lemma string_goto (s : scanner) (b : builder) (st' : scan_step) (c : ascii) :
  inv s b -> endTop s = false ->
  (exists body, lit b = Some (String dquote body) /\ done b = None
                /\ string_run stInString body = Some (step s)) ->
  string_delta (step s) c = Some st' ->
  inv (goto st' s) (feed b c scanContinue).
Proof.
  intros [Herr Hsync Hframes Hbelow _ _] Htop (body & Hl & Hd & Hrun) Hdelta.
  destruct s as [st et ps er nb], b as [l d fs sy]. simpl in *. subst.
  constructor; simpl; auto.
  - intros [=].
  - assert (Hrun' : string_run stInString (body +:+ String c EmptyString) = Some st')
      by (rewrite string_run_snoc, Hrun; exact Hdelta).
    unfold step_inv. simpl.
    destruct st; simpl in Hdelta;
      repeat match type of Hdelta with
      | (if ?x then _ else _) = _ => destruct x
      end; try discriminate; injection Hdelta as <-; simpl; eauto.
Qed.

Lemma string_close (s : scanner) (b : builder) :
  inv s b -> endTop s = false ->
  (exists body, lit b = Some (String dquote body) /\ done b = None
                /\ string_run stInString body = Some stInString) ->
  inv (goto stEndValue s) (feed b dquote scanContinue).
Proof.
  intros [Herr Hsync Hframes Hbelow _ _] Htop (body & Hl & Hd & Hrun).
  destruct s as [st et ps er nb], b as [l d fs sy]. simpl in *. subst.
  constructor; simpl; auto.
  - intros [=].
  - unfold step_inv, at_hand. simpl.
    destruct (unquoteBytes_ok body Hrun) as [k Hk].
    exists (JString k). split.
    + exact (f_equal (fmap JString) Hk).
    + intros _. eauto.
Qed.

Lemma stateInStringEsc_unfold (s : scanner) (c : ascii) :
  stateInStringEsc s c
  = if is_simple_escape c then (goto stInString s, scanContinue)
    else if Ascii.eqb c "u" then (goto stInStringEscU s, scanContinue)
    else scanner_error s c "in string escape code".
Proof. reflexivity. Qed.

Ltac literal_leaf Hinv Hstep Htop :=
  first
    [ exact (scanner_error_outcome _ _ _ _)
    | right; apply (literal_goto _ _ _ _ Hinv Hstep Htop); reflexivity
    | apply (literal_end _ _ _ Hinv Hstep Htop) ].

Ltac literal_state Hinv Hstep Htop :=
  repeat match goal with
  | |- context [if ?x then _ else _] => destruct x
  end; literal_leaf Hinv Hstep Htop.

Ltac string_leaf Hinv Hstep Htop :=
  first
    [ exact (scanner_error_outcome _ _ _ _)
    | right; apply (string_goto _ _ _ _ Hinv Htop Hstep); simpl;
      repeat match goal with H : _ = _ |- _ => rewrite H end; reflexivity ].

(** One byte keeps the scanner and the builder in step. *)
Lemma scanner_step_outcome (s : scanner) (b : builder) (c : ascii) :
  inv s b ->
  outcome (fst (scanner_step s c)) (snd (scanner_step s c))
    (feed b c (snd (scanner_step s c))).
Proof.
  intros Hinv.
  pose proof Hinv as [Herr Hsync Hframes Hbelow Hend Hstep].
  destruct s as [st et ps er nb].
  unfold scanner_step. cbn [step].
  destruct st; unfold step_inv in Hstep; cbn [step] in Hstep;
    try (assert (Htop : et = false)
           by (apply (inv_not_top _ _ Hinv); discriminate)).
  - (* stBeginValueOrEmpty *)
    destruct Hstep as [Hnothing [ps' Hps]]. simpl in Hps. subst ps.
    unfold stateBeginValueOrEmpty. destruct (isSpace c).
    { right. simpl. rewrite (close_nothing b Hnothing). exact Hinv. }
    destruct (Ascii.eqb_spec c "]") as [->|_].
    + simpl. right. destruct b as [l d fs sy], Hnothing as [Hl Hd].
      simpl in *. subst.
      inversion Hframes as [|p f ps fs' Hf Hfs]; subst.
      destruct (frame_fits_array _ Hf) as [es ->]. simpl.
      eapply pop_inv; simpl; eauto.
    + apply stateBeginValue_outcome; auto.
  - (* stBeginValue *)
    destruct Hstep. apply stateBeginValue_outcome; auto.
  - (* stBeginStringOrEmpty *)
    destruct Hstep as [Hnothing Hkey]. simpl in Hkey.
    unfold stateBeginStringOrEmpty. destruct (isSpace c).
    { right. simpl. rewrite (close_nothing b Hnothing). exact Hinv. }
    destruct (Ascii.eqb_spec c "}") as [->|_].
    + destruct ps as [|[| |] ps']; try discriminate.
      simpl. right. destruct b as [l d fs sy], Hnothing as [Hl Hd].
      simpl in *. subst.
      inversion Hframes as [|p f ps fs' Hf Hfs]; subst.
      destruct (frame_fits_key _ Hf) as [ms ->]. simpl.
      eapply pop_inv; simpl; eauto.
    + apply stateBeginString_outcome; auto.
  - (* stBeginString *)
    destruct Hstep. apply stateBeginString_outcome; auto.
  - (* stEndValue *)
    apply stateEndValue_outcome; auto.
  - (* stEndTop *)
    destruct Hstep as [Hps Hhand]. simpl in Hps. subst ps.
    unfold stateEndTop. destruct (isSpace c); simpl.
    + right. destruct (close_at_hand _ _ Hhand) as (v & -> & Hk).
      constructor; auto. unfold step_inv, at_hand. simpl. auto.
    + left. split; [discriminate|reflexivity].
  - (* stInString *)
    unfold stateInString.
    destruct (Ascii.eqb_spec c dquote) as [->|Hq].
    { right. apply (string_close _ _ Hinv Htop Hstep). }
    apply Ascii.eqb_neq in Hq.
    destruct (Ascii.eqb c backslash) eqn:Ebs; [string_leaf Hinv Hstep Htop|].
    destruct (byte_of c <? 32) eqn:Ectl; string_leaf Hinv Hstep Htop.
  - (* stInStringEsc *)
    rewrite stateInStringEsc_unfold.
    destruct (is_simple_escape c) eqn:Es; [string_leaf Hinv Hstep Htop|].
    destruct (Ascii.eqb c "u") eqn:Eu; string_leaf Hinv Hstep Htop.
  - unfold stateInStringEscHex. destruct (isHex c) eqn:Eh; string_leaf Hinv Hstep Htop.
  - unfold stateInStringEscHex. destruct (isHex c) eqn:Eh; string_leaf Hinv Hstep Htop.
  - unfold stateInStringEscHex. destruct (isHex c) eqn:Eh; string_leaf Hinv Hstep Htop.
  - unfold stateInStringEscHex. destruct (isHex c) eqn:Eh; string_leaf Hinv Hstep Htop.
  - unfold stateNeg. literal_state Hinv Hstep Htop.
  - unfold state1, state0. literal_state Hinv Hstep Htop.
  - unfold state0. literal_state Hinv Hstep Htop.
  - unfold stateDot. literal_state Hinv Hstep Htop.
  - unfold stateDot0. literal_state Hinv Hstep Htop.
  - unfold stateE, stateESign. literal_state Hinv Hstep Htop.
  - unfold stateESign. literal_state Hinv Hstep Htop.
  - unfold stateE0. literal_state Hinv Hstep Htop.
  - unfold stateLiteral. literal_state Hinv Hstep Htop.
  - unfold stateLiteral. literal_state Hinv Hstep Htop.
  - unfold stateLiteral. literal_state Hinv Hstep Htop.
  - unfold stateLiteral. literal_state Hinv Hstep Htop.
  - unfold stateLiteral. literal_state Hinv Hstep Htop.
  - unfold stateLiteral. literal_state Hinv Hstep Htop.
  - unfold stateLiteral. literal_state Hinv Hstep Htop.
  - unfold stateLiteral. literal_state Hinv Hstep Htop.
  - unfold stateLiteral. literal_state Hinv Hstep Htop.
  - unfold stateLiteral. literal_state Hinv Hstep Htop.
  - contradiction.
Qed.

Lemma inv_init : inv scanner_reset builder_init.
Proof.
  constructor; simpl; auto.
  - discriminate.
  - unfold step_inv, nothing_read. simpl. auto.
Qed.

Lemma failed_checkValid (s : scanner) (data : string) :
  failed s -> checkValid_from s data <> None.
Proof.
  intros [Herr Hstep]. destruct data as [|c rest]; simpl.
  - unfold scanner_eof. destruct (err s); [discriminate|contradiction].
  - unfold scanner_step. cbn [count_byte step]. rewrite Hstep. exact Herr.
Qed.

Lemma builder_result_at_hand (b : builder) :
  in_sync b = true -> frames b = [] -> at_hand [] b -> is_Some (builder_result b).
Proof.
  intros Hsync Hfs Hhand. unfold builder_result.
  destruct (close_at_hand _ _ Hhand) as (v & -> & _). simpl.
  rewrite Hfs, Hsync. eauto.
Qed.

Lemma in_literal_at_hand (s : scanner) (b : builder) :
  in_literal s b -> at_hand [] b.
Proof.
  intros (c & rest & Hl & Hq & Hd & _). unfold at_hand. rewrite Hl, Hd.
  destruct (value_of_literal_other c rest Hq) as [v Hv].
  exists v. split; [exact Hv|]. intros [=].
Qed.

(** Where the scanner lets the input end, the builder holds the value. *)
Lemma eof_result (s : scanner) (b : builder) :
  inv s b -> scanner_eof s = None -> is_Some (builder_result b).
Proof.
  intros [Herr Hsync Hframes Hbelow Hend Hstep].
  destruct s as [st et ps er nb]. unfold step_inv in Hstep. simpl in *. subst er.
  unfold scanner_eof. cbn [err endTop]. destruct et.
  - intros _. rewrite (Hend eq_refl) in Hstep.
    destruct Hstep as [Hps Hhand]. subst ps.
    inversion Hframes; subst. apply builder_result_at_hand; auto.
  - destruct ps as [|p ps].
    + inversion Hframes; subst.
      destruct st; simpl; try discriminate; intros _;
        apply builder_result_at_hand; auto;
        try exact Hstep; try exact (in_literal_at_hand scanner_reset _ Hstep).
    + destruct st, p; simpl; discriminate.
Qed.

(** Every input the scanner accepts has a value. *)
Lemma read_value_from_total (data : string) (s : scanner) (b : builder) :
  inv s b -> checkValid_from s data = None -> is_Some (read_value_from s b data).
Proof.
  revert s b. induction data as [|c rest IH]; intros s b Hinv Hvalid.
  - apply (eof_result s b Hinv Hvalid).
  - simpl in Hvalid |- *.
    pose proof (scanner_step_outcome (count_byte s) b c (inv_count_byte _ _ Hinv)) as Hout.
    destruct (scanner_step (count_byte s) c) as [s' op]. simpl in Hout.
    destruct op; simpl in Hout;
      try (destruct Hout as [Hfailed|Hinv'];
           [exfalso; exact (failed_checkValid _ _ Hfailed Hvalid)
           |exact (IH _ _ Hinv' Hvalid)]).
    contradiction.
Qed.

Theorem read_value_total (data : string) :
  checkValid data = None -> is_Some (read_value data).
Proof. apply read_value_from_total, inv_init. Qed.

(** The decoder's second walk never disagrees with the scanner. *)
Theorem json_Unmarshal_in_phase (data : string) (request : Request) :
  snd (json_Unmarshal data request) <> Some ErrPhase.
Proof.
  unfold json_Unmarshal. destruct (checkValid data) eqn:E; [discriminate|].
  destruct (read_value_total data E) as [v ->]. simpl.
  destruct (savedError _); discriminate.
Qed.

(** ** Decoding into [Request] *)

Lemma store_field_other (f f' : field) (v : json) (d : decodeState) :
  f <> f' -> get_field f (target (store_field f' v d)) = get_field f (target d).
Proof.
  intros Hne. unfold store_field, saveError.
  destruct v; try (destruct (savedError d); reflexivity); try reflexivity.
  destruct f, f'; try reflexivity; contradiction.
Qed.

Lemma decode_member_other (f : field) (m : string * json) (d : decodeState) :
  find_field (fst m) <> Some f ->
  get_field f (target (decode_member d m)) = get_field f (target d).
Proof.
  intros H. unfold decode_member. destruct (find_field (fst m)) as [f'|]; [|reflexivity].
  apply store_field_other. congruence.
Qed.

(** A field no key of the object addresses keeps the value it had. *)
Lemma decode_members_missing (f : field) (ms : list (string * json)) (d : decodeState) :
  Forall (fun m => find_field (fst m) <> Some f) ms ->
  get_field f (target (fold_left decode_member ms d)) = get_field f (target d).
Proof.
  intros H. revert d. induction H as [|m ms Hm _ IH]; intros d; simpl; [reflexivity|].
  rewrite IH. apply decode_member_other, Hm.
Qed.

Lemma decode_member_error (m : string * json) (d : decodeState) :
  savedError (decode_member d m) = None <->
  savedError d = None /\ member_fits m = true.
Proof.
  unfold decode_member, member_fits, store_field, saveError.
  destruct (find_field (fst m)) as [f|]; [|intuition].
  destruct (snd m); simpl; destruct (savedError d) eqn:E; simpl; rewrite ?E;
    intuition congruence.
Qed.

(** The members are decoded without error exactly when each of them
    fits. *)
Lemma decode_members_error (ms : list (string * json)) (d : decodeState) :
  savedError (fold_left decode_member ms d) = None <->
  savedError d = None /\ Forall (fun m => member_fits m = true) ms.
Proof.
  revert d. induction ms as [|m ms IH]; intros d; simpl.
  - intuition.
  - rewrite IH, decode_member_error, Forall_cons. intuition.
Qed.

(** Which inputs [json.Unmarshal] takes without error: those the scanner
    accepts and that denote [null] or an object all of whose members fit. *)
Lemma json_Unmarshal_ok (data : string) (request : Request) :
  json_Unmarshal data Request_zero = (request, None) <->
  checkValid data = None
  /\ (read_value data = Some JNull /\ request = Request_zero
      \/ exists ms, read_value data = Some (JObject ms)
                    /\ Forall (fun m => member_fits m = true) ms
                    /\ request
                       = target (fold_left decode_member ms
                                   {| target := Request_zero; savedError := None |})).
Proof.
  unfold json_Unmarshal. destruct (checkValid data) as [e|].
  { split; [discriminate|]. intros [[=] _]. }
  destruct (read_value data) as [v|].
  2:{ split; [discriminate|]. intros [_ [[[=] _]|(ms & [=] & _)]]. }
  destruct v as [|b|n|s|es|ms]; simpl;
    try (split; [discriminate|]; intros [_ [[[=] _]|(ms' & [=] & _)]]).
  - split.
    + intros [= <-]. split; [reflexivity|]. left. split; reflexivity.
    + intros [_ [[_ ->]|(ms & [=] & _)]]. reflexivity.
  - pose proof (decode_members_error ms {| target := Request_zero; savedError := None |})
      as Herr. simpl in Herr.
    destruct (savedError (fold_left decode_member ms _)) as [u|] eqn:Es; simpl.
    + split; [discriminate|]. intros [_ [[[=] _]|(ms' & [= <-] & Hfit & _)]].
      assert (Some u = None) by (apply Herr; auto). discriminate.
    + split.
      * intros [= <-]. split; [reflexivity|]. right. exists ms.
        split; [reflexivity|]. split; [apply Herr; reflexivity|reflexivity].
      * intros [_ [[[=] _]|(ms' & [= <-] & _ & ->)]]. reflexivity.
Qed.

(** An error of [json.Unmarshal] is the scanner's syntax error, or a type
    error of the decoder on input the scanner accepted. *)
Lemma json_Unmarshal_error_kind (data : string) (request : Request) (e : json_error) :
  snd (json_Unmarshal data request) = Some e ->
  (exists se, e = ErrSyntax se /\ checkValid data = Some se)
  \/ (exists te, e = ErrUnmarshalType te /\ checkValid data = None).
Proof.
  intros H. pose proof (json_Unmarshal_in_phase data request) as Hphase.
  rewrite H in Hphase. revert H. unfold json_Unmarshal.
  destruct (checkValid data) as [se|]; simpl.
  - intros [= <-]. left. eauto.
  - destruct (read_value data) as [v|]; simpl.
    + destruct (savedError _) as [te|]; simpl; intros [= <-]. right. eauto.
    + intros [= <-]. contradiction.
Qed.

(** ** The submission pipeline *)

Section HandlerProperties.

Variable Time_String : Time -> string.

(** The handler's three ways out, as equations. *)

Lemma submitHandler_rejected (conf : Conf) (env : Env) (st : World)
    (w : ResponseWriter) (r : http_Request) :
  snd (checkAuthorization conf w r) = false ->
  submitHandler Time_String conf env st w r = (st, fst (checkAuthorization conf w r)).
Proof.
  intros H. unfold submitHandler.
  destruct (checkAuthorization conf w r) as [w' ok]. simpl in H. subst ok. reflexivity.
Qed.

Lemma submitHandler_invalid (conf : Conf) (env : Env) (st : World)
    (w : ResponseWriter) (r : http_Request) (e : json_error) :
  snd (checkAuthorization conf w r) = true ->
  snd (json_Unmarshal (FormValue r "request") Request_zero) = Some e ->
  submitHandler Time_String conf env st w r
  = (st, http_Error w ("Missing or malformed request form field: " +:+ Error e) 400).
Proof.
  intros Hauth Herr. unfold submitHandler.
  rewrite (checkAuthorization_true_silent _ _ _ Hauth). simpl.
  destruct (json_Unmarshal (FormValue r "request") Request_zero) as [request err].
  simpl in Herr. subst err. reflexivity.
Qed.

Lemma submitHandler_accepted (conf : Conf) (env : Env) (st : World)
    (w : ResponseWriter) (r : http_Request) (request : Request) :
  snd (checkAuthorization conf w r) = true ->
  json_Unmarshal (FormValue r "request") Request_zero = (request, None) ->
  let now := wall st + Z.of_N (until_now env) in
  let '(st2, record, cerr) :=
    gorm_Create env (elapse (until_now env) st) (new_record request now) in
  submitHandler Time_String conf env st w r
  = (elapse (until_return env)
       (go_DialAndSend (confirmation Time_String record)
          match cerr with
          | Some e => log_Printf ("Failed to store attendance record: " +:+ e) st2
          | None => st2
          end), w).
Proof.
  intros Hauth Hreq. unfold submitHandler.
  rewrite (checkAuthorization_true_silent _ _ _ Hauth). simpl. rewrite Hreq.
  unfold time_Now. simpl.
  destruct (gorm_Create env (elapse (until_now env) st) _) as [[st2 record] cerr].
  reflexivity.
Qed.

(** C4. When [checkAuthorization] rejects the request, [submitHandler]
    returns at once: the state is the one it was called in (no record, no
    message, no log line), the response is the one the gate wrote (the 400
    or the 401 error), and the outcome depends neither on the form fields
    nor on what the surroundings would have done. *)
Theorem submitHandler_rejected_short_circuit (conf : Conf) (env : Env) (st : World)
    (w : ResponseWriter) (r : http_Request) :
  snd (checkAuthorization conf w r) = false ->
  submitHandler Time_String conf env st w r = (st, fst (checkAuthorization conf w r))
  /\ (fst (checkAuthorization conf w r)
        = http_Error w "Bad or missing Authorization header" 400
      \/ fst (checkAuthorization conf w r) = http_Error w "Access denied" 401)
  /\ (forall env' r', Header r' = Header r ->
        submitHandler Time_String conf env' st w r'
        = submitHandler Time_String conf env st w r).
Proof.
  intros H. split; [|split].
  - apply submitHandler_rejected, H.
  - revert H. unfold checkAuthorization.
    repeat match goal with |- context [if ?b then _ else _] => destruct b end;
      simpl; intros H; try discriminate; auto.
  - intros env' r' Hr.
    assert (Hsame : checkAuthorization conf w r' = checkAuthorization conf w r)
      by (unfold checkAuthorization; rewrite Hr; reflexivity).
    rewrite (submitHandler_rejected conf env' st w r') by (rewrite Hsame; exact H).
    rewrite (submitHandler_rejected conf env st w r H), Hsame. reflexivity.
Qed.

(** C5. For an authorized request whose [request] form field is missing
    or does not unmarshal into a [Request], [submitHandler] answers 400
    with the message "Missing or malformed request form field: " followed
    by the decoder's error, and returns in the state it was called in: no
    record is created and no message is built or handed over.  The error
    is a syntax error of the scanner or, on well-formed input, a value or
    member of the wrong type.  A missing field reads as the empty input,
    which the scanner rejects. *)
Theorem submitHandler_invalid_payload (conf : Conf) (env : Env) (st : World)
    (w : ResponseWriter) (r : http_Request) :
  snd (checkAuthorization conf w r) = true ->
  rw_status w = None ->
  (forall e, snd (json_Unmarshal (FormValue r "request") Request_zero) = Some e ->
     let w' := http_Error w ("Missing or malformed request form field: " +:+ Error e) 400 in
     submitHandler Time_String conf env st w r = (st, w')
     /\ response_status w' = 400
     /\ rw_body w'
        = rw_body w +:+ "Missing or malformed request form field: " +:+ Error e +:+ newline
     /\ ((exists se, e = ErrSyntax se /\ checkValid (FormValue r "request") = Some se)
         \/ (exists te, e = ErrUnmarshalType te
                        /\ checkValid (FormValue r "request") = None)))
  /\ (Form r !! "request" = None ->
      snd (json_Unmarshal (FormValue r "request") Request_zero)
      = Some (ErrSyntax {| syntax_msg := "unexpected end of JSON input";
                           syntax_Offset := 0 |})).
Proof.
  intros Hauth Hw. split.
  - intros e He w'. split; [|split; [|split]].
    + apply submitHandler_invalid; assumption.
    + apply http_Error_status, Hw.
    + subst w'. unfold http_Error, Write, WriteHeader, Header_Set. simpl.
      rewrite Hw. reflexivity.
    + exact (json_Unmarshal_error_kind _ _ _ He).
  - intros Habsent. unfold FormValue. rewrite Habsent. reflexivity.
Qed.

(** Where the accepted path leaves the response, the table, the queue of
    outgoing messages, the log and the clock. *)
Lemma submitHandler_accepted_parts (conf : Conf) (env : Env) (st : World)
    (w : ResponseWriter) (r : http_Request) (request : Request) :
  snd (checkAuthorization conf w r) = true ->
  json_Unmarshal (FormValue r "request") Request_zero = (request, None) ->
  let now := wall st + Z.of_N (until_now env) in
  let record := new_record request now in
  let stored :=
    {| Record_ID := next_ID st; Record_When := now; Record_Name := Name request;
       Record_SurfId := SurfId request; Record_EMail := EMail request |} in
  let st' := fst (submitHandler Time_String conf env st w r) in
  snd (submitHandler Time_String conf env st w r) = w
  /\ wall st' = now + Z.of_N (until_return env)
  /\ creates st' = creates st ++ [record]
  /\ match create_error env with
     | None =>
         table st' = table st ++ [stored]
         /\ next_ID st' = next_ID st + 1
         /\ log_lines st' = log_lines st
         /\ sending st' = sending st ++ [confirmation Time_String stored]
     | Some e =>
         table st' = table st
         /\ next_ID st' = next_ID st
         /\ log_lines st' = log_lines st ++ ["Failed to store attendance record: " +:+ e]
         /\ sending st' = sending st ++ [confirmation Time_String record]
     end.
Proof.
  intros Hauth Hreq now record stored st'.
  pose proof (submitHandler_accepted conf env st w r request Hauth Hreq) as H.
  subst st'. cbv zeta in H. fold now in H. fold record in H.
  unfold gorm_Create in H.
  destruct (create_error env) as [e|]; simpl in H; rewrite H; simpl;
    repeat (split; [reflexivity|]); reflexivity.
Qed.

(** The message does not look at the key or at the identifier. *)
Lemma confirmation_ext (r1 r2 : AttendanceRecord) :
  Record_Name r1 = Record_Name r2 -> Record_When r1 = Record_When r2 ->
  Record_EMail r1 = Record_EMail r2 ->
  confirmation Time_String r1 = confirmation Time_String r2.
Proof.
  intros Hn Hw He. unfold confirmation. rewrite Hn, Hw, He. reflexivity.
Qed.

(** C6. For an authorized request whose payload unmarshals into [request],
    [submitHandler] builds one record and calls [db.Create] with it, once.
    The record's key is left for the database, its three strings are those
    of [request], unchanged, and its timestamp is the reading of
    [time.Now()], which lies between the instant the call starts and the
    instant it returns.  When the write succeeds the table grows by exactly
    this row, stored under the next key; when it fails the table is as
    before. *)
Theorem submitHandler_stores_one_record (conf : Conf) (env : Env) (st : World)
    (w : ResponseWriter) (r : http_Request) (request : Request) :
  snd (checkAuthorization conf w r) = true ->
  json_Unmarshal (FormValue r "request") Request_zero = (request, None) ->
  let st' := fst (submitHandler Time_String conf env st w r) in
  let when := snd (time_Now env st) in
  wall st <= when <= wall st'
  /\ creates st'
     = creates st ++ [{| Record_ID := 0; Record_When := when;
                         Record_Name := Name request;
                         Record_SurfId := SurfId request;
                         Record_EMail := EMail request |}]
  /\ (create_error env = None ->
      table st'
      = table st ++ [{| Record_ID := next_ID st; Record_When := when;
                        Record_Name := Name request;
                        Record_SurfId := SurfId request;
                        Record_EMail := EMail request |}]
      /\ length (table st') = S (length (table st)))
  /\ (forall e, create_error env = Some e -> table st' = table st).
Proof.
  intros Hauth Hreq st' when.
  destruct (submitHandler_accepted_parts conf env st w r request Hauth Hreq)
    as (_ & Hwall & Hcalls & Hrest).
  fold st' in Hwall, Hcalls, Hrest. subst when. unfold time_Now. simpl.
  split; [lia|]. split; [exact Hcalls|].
  destruct (create_error env) as [e|]; destruct Hrest as (Ht & _); split.
  - intros [=].
  - intros e' _. exact Ht.
  - intros _. split; [exact Ht|]. rewrite Ht, length_app. simpl. lia.
  - intros e' [=].
Qed.

(** C7. For an authorized request with a valid payload, a failing write
    changes nothing the client sees: the response is the one of the
    successful path, untouched by the handler, hence 200.  The failure is
    only logged, the table stays as it was, and the same message as on the
    successful path is built and handed over. *)
Theorem submitHandler_persistence_failure (conf : Conf) (env : Env) (st : World)
    (w : ResponseWriter) (r : http_Request) (request : Request) (e : string) :
  snd (checkAuthorization conf w r) = true ->
  json_Unmarshal (FormValue r "request") Request_zero = (request, None) ->
  create_error env = Some e ->
  let env_success :=
    {| until_now := until_now env; until_return := until_return env;
       create_error := None |} in
  let failed := submitHandler Time_String conf env st w r in
  let succeeded := submitHandler Time_String conf env_success st w r in
  snd failed = snd succeeded
  /\ snd failed = w
  /\ (rw_status w = None -> response_status (snd failed) = StatusOK)
  /\ sending (fst failed) = sending (fst succeeded)
  /\ sending (fst failed)
     = sending st ++ [confirmation Time_String
                        (new_record request (wall st + Z.of_N (until_now env)))]
  /\ table (fst failed) = table st
  /\ log_lines (fst failed)
     = log_lines st ++ ["Failed to store attendance record: " +:+ e].
Proof.
  intros Hauth Hreq Hfail env_success failed succeeded.
  destruct (submitHandler_accepted_parts conf env st w r request Hauth Hreq)
    as (Hw & _ & Hf).
  destruct (submitHandler_accepted_parts conf env_success st w r request Hauth Hreq)
    as (Hw' & _ & Hs).
  rewrite Hfail in Hf. simpl in Hs.
  destruct Hf as (_ & Ht & _ & Hl & Hm). destruct Hs as (_ & _ & _ & _ & Hm').
  fold failed in Hw, Ht, Hl, Hm. fold succeeded in Hw', Hm'.
  repeat split; try assumption.
  - congruence.
  - intros Hfresh. rewrite Hw. unfold response_status. rewrite Hfresh. reflexivity.
  - rewrite Hm, Hm'. do 2 f_equal.
Qed.

(** In the body the name and the printed timestamp can each be read back
    once the other is known. *)
Lemma confirmation_body_inv (n1 n2 : string) (t1 t2 : Time) :
  confirmation_body Time_String n1 t1 = confirmation_body Time_String n2 t2 ->
  (Time_String t1 = Time_String t2 -> n1 = n2)
  /\ (n1 = n2 -> Time_String t1 = Time_String t2).
Proof.
  unfold confirmation_body. intros H.
  apply (inj (String.append "Dear student ")) in H. split.
  - intros HT. rewrite HT in H. exact (append_inj_r _ _ _ H).
  - intros Hn. subst n2.
    repeat apply (inj (String.append _)) in H.
    exact (append_inj_r _ _ _ H).
Qed.

(** C8. The message is a function of the record: it is addressed to the
    record's [EMail], its sender and subject are fixed, and its only part
    is the plain-text body, the fixed text around the record's [Name] and
    its [When] as [t.String()] prints it.  Two records that agree on these
    fields give the same message; and the message depends on them: equal
    messages come from records with the same [EMail], with the same [Name]
    when the timestamps print the same, and with timestamps that print the
    same when the names are the same.  On every accepted submission the
    message handed over is the one built from the record of that
    submission. *)
Theorem confirmation_from_record :
  (forall record : AttendanceRecord,
     let m := confirmation Time_String record in
     msg_header m !! "To" = Some [Record_EMail record]
     /\ msg_header m !! "From"
        = Some ["Privacy Seminar <no-reply@metrics.privacybydesign.foundation>"]
     /\ msg_header m !! "Subject" = Some ["Your presence at Privacy and Identity"]
     /\ msg_parts m
        = [("text/plain",
            "Dear student " +:+ Record_Name record +:+ "," +:+ newline
            +:+ newline
            +:+ "This email confirms that your presence at the course" +:+ newline
            +:+ "Privacy and Identity has been registered at: "
            +:+ Time_String (Record_When record) +:+ newline
            +:+ newline
            +:+ "With best regards," +:+ newline
            +:+ "Koning and Jacobs" +:+ newline)])
  /\ (forall r1 r2 : AttendanceRecord,
        Record_Name r1 = Record_Name r2 -> Record_When r1 = Record_When r2 ->
        Record_EMail r1 = Record_EMail r2 ->
        confirmation Time_String r1 = confirmation Time_String r2)
  /\ (forall r1 r2 : AttendanceRecord,
        confirmation Time_String r1 = confirmation Time_String r2 ->
        Record_EMail r1 = Record_EMail r2
        /\ (Time_String (Record_When r1) = Time_String (Record_When r2) ->
            Record_Name r1 = Record_Name r2)
        /\ (Record_Name r1 = Record_Name r2 ->
            Time_String (Record_When r1) = Time_String (Record_When r2)))
  /\ (forall conf env st w r request,
        snd (checkAuthorization conf w r) = true ->
        json_Unmarshal (FormValue r "request") Request_zero = (request, None) ->
        sending (fst (submitHandler Time_String conf env st w r))
        = sending st ++ [confirmation Time_String
                           (new_record request (wall st + Z.of_N (until_now env)))]).
Proof.
  assert (Hto : forall record,
            msg_header (confirmation Time_String record) !! "To"
            = Some [Record_EMail record]).
  { intros record. unfold confirmation, SetBody, SetHeader. simpl.
    rewrite lookup_insert_ne by discriminate. apply lookup_insert_eq. }
  split; [|split; [|split]].
  - intros record m. subst m. split; [apply Hto|].
    unfold confirmation, SetBody, SetHeader. simpl.
    split; [|split].
    + rewrite !lookup_insert_ne by discriminate. apply lookup_insert_eq.
    + apply lookup_insert_eq.
    + reflexivity.
  - apply confirmation_ext.
  - intros r1 r2 Hm. split.
    + pose proof (Hto r1) as H1. rewrite Hm, Hto in H1. congruence.
    + apply (f_equal msg_parts) in Hm.
      change ([("text/plain",
                confirmation_body Time_String (Record_Name r1) (Record_When r1))]
              = [("text/plain",
                  confirmation_body Time_String (Record_Name r2) (Record_When r2))])
        in Hm.
      apply (confirmation_body_inv (Record_Name r1) (Record_Name r2)
               (Record_When r1) (Record_When r2)).
      congruence.
  - intros conf env st w r request Hauth Hreq.
    destruct (submitHandler_accepted_parts conf env st w r request Hauth Hreq)
      as (_ & _ & _ & H).
    destruct (create_error env); destruct H as (_ & _ & _ & Hm); rewrite Hm;
      do 2 f_equal.
Qed.

(** C10. Every authorized request whose [request] field unmarshals into
    the struct is accepted: no error response is written (the status is
    200), one message is handed over, addressed to the request's [EMail]
    even when that is empty, and the record is stored when the write
    succeeds.  The inputs that unmarshal include the literal [null] and the
    empty object, which leave every field empty, and every object whose
    members either carry a key that addresses no field or hold a string or
    [null]; a field no key addresses is the empty string. *)
Theorem submitHandler_accepts_unmarshalled (conf : Conf) (env : Env) (st : World)
    (w : ResponseWriter) (r : http_Request) :
  snd (checkAuthorization conf w r) = true ->
  let data := FormValue r "request" in
  let st' := fst (submitHandler Time_String conf env st w r) in
  (forall request,
     json_Unmarshal data Request_zero = (request, None) ->
     snd (submitHandler Time_String conf env st w r) = w
     /\ (rw_status w = None ->
         response_status (snd (submitHandler Time_String conf env st w r)) = StatusOK)
     /\ (exists m, sending st' = sending st ++ [m]
                   /\ msg_header m !! "To" = Some [EMail request])
     /\ (create_error env = None ->
         table st'
         = table st ++ [{| Record_ID := next_ID st;
                           Record_When := wall st + Z.of_N (until_now env);
                           Record_Name := Name request;
                           Record_SurfId := SurfId request;
                           Record_EMail := EMail request |}]))
  /\ (checkValid data = None -> read_value data = Some JNull ->
      json_Unmarshal data Request_zero = (Request_zero, None))
  /\ (forall ms,
        checkValid data = None -> read_value data = Some (JObject ms) ->
        Forall (fun m => member_fits m = true) ms ->
        exists request,
          json_Unmarshal data Request_zero = (request, None)
          /\ forall f, Forall (fun m => find_field (fst m) <> Some f) ms ->
                       get_field f request = "")
  /\ json_Unmarshal "null" Request_zero = (Request_zero, None)
  /\ json_Unmarshal "{}" Request_zero = (Request_zero, None).
Proof.
  intros Hauth data st'. split; [|split; [|split; [|split]]].
  - intros request Hreq.
    destruct (submitHandler_accepted_parts conf env st w r request Hauth Hreq)
      as (Hw & _ & _ & H).
    fold st' in H. split; [exact Hw|split; [|split]].
    + intros Hfresh. rewrite Hw. unfold response_status. rewrite Hfresh. reflexivity.
    + destruct (create_error env); destruct H as (_ & _ & _ & Hm);
        eexists; (split; [exact Hm|]); reflexivity.
    + intros Hok. rewrite Hok in H. apply H.
  - intros Hvalid Hnull. apply json_Unmarshal_ok. split; [exact Hvalid|]. left. auto.
  - intros ms Hvalid Hobj Hfit. eexists. split.
    + apply json_Unmarshal_ok. split; [exact Hvalid|]. right. exists ms. auto.
    + intros f Hmissing. rewrite (decode_members_missing f ms _ Hmissing).
      destruct f; reflexivity.
  - reflexivity.
  - reflexivity.
Qed.

End HandlerProperties.

(** ** The scenarios, run *)

Lemma submitHandler_rejected_short_circuit_witness :
  submitHandler Time_String_sample conf_secret env_ok world_empty w_fresh
    (request_with [] [payload_ann])
  = (world_empty, http_Error w_fresh "Bad or missing Authorization header" 400)
  /\ submitHandler Time_String_sample conf_secret env_ok world_empty w_fresh
       (request_with ["Basic wrongtoken"] [payload_ann])
     = (world_empty, http_Error w_fresh "Access denied" 401).
Proof.
  split.
  - exact (proj1 (submitHandler_rejected_short_circuit Time_String_sample conf_secret
                    env_ok world_empty w_fresh (request_with [] [payload_ann]) eq_refl)).
  - exact (proj1 (submitHandler_rejected_short_circuit Time_String_sample conf_secret
                    env_ok world_empty w_fresh
                    (request_with ["Basic wrongtoken"] [payload_ann]) eq_refl)).
Defined.


Lemma submitHandler_invalid_payload_witness :
  submitHandler Time_String_sample conf_secret env_ok world_empty w_fresh
    (request_with ["Basic secrettoken"] ["not-json"])
  = (world_empty,
     http_Error w_fresh
       "Missing or malformed request form field: invalid character 'o' in literal null (expecting 'u')"
       400)
  /\ submitHandler Time_String_sample conf_secret env_ok world_empty w_fresh
       (request_with ["Basic secrettoken"] [])
     = (world_empty,
        http_Error w_fresh
          "Missing or malformed request form field: unexpected end of JSON input" 400).
Proof.
  split.
  - exact (proj1 (proj1 (submitHandler_invalid_payload Time_String_sample conf_secret
                           env_ok world_empty w_fresh
                           (request_with ["Basic secrettoken"] ["not-json"])
                           eq_refl eq_refl) _ eq_refl)).
  - exact (proj1 (proj1 (submitHandler_invalid_payload Time_String_sample conf_secret
                           env_ok world_empty w_fresh
                           (request_with ["Basic secrettoken"] [])
                           eq_refl eq_refl) _ eq_refl)).
Defined.

Lemma submitHandler_stores_one_record_witness :
  let st' :=
    fst (submitHandler Time_String_sample conf_secret env_ok world_empty w_fresh
           (request_with ["Basic secrettoken"] [payload_ann])) in
  1000 <= 1005 <= wall st'
  /\ creates st'
     = [{| Record_ID := 0; Record_When := 1005; Record_Name := "Ann";
           Record_SurfId := "ann123"; Record_EMail := "ann@example.com" |}]
  /\ table st'
     = [{| Record_ID := 1; Record_When := 1005; Record_Name := "Ann";
           Record_SurfId := "ann123"; Record_EMail := "ann@example.com" |}].
Proof.
  destruct (submitHandler_stores_one_record Time_String_sample conf_secret env_ok
              world_empty w_fresh (request_with ["Basic secrettoken"] [payload_ann])
              request_ann eq_refl eq_refl)
    as (Hbetween & Hcalls & Hstored & _).
  intros st'. split; [exact Hbetween|]. split; [exact Hcalls|].
  exact (proj1 (Hstored eq_refl)).
Defined.

Lemma submitHandler_persistence_failure_witness :
  let failed :=
    submitHandler Time_String_sample conf_secret env_disk_full world_empty w_fresh
      (request_with ["Basic secrettoken"] [payload_ann]) in
  snd failed = w_fresh
  /\ response_status (snd failed) = 200
  /\ sending (fst failed)
     = [confirmation Time_String_sample (new_record request_ann 1005)]
  /\ table (fst failed) = []
  /\ log_lines (fst failed) = ["Failed to store attendance record: disk full"].
Proof.
  destruct (submitHandler_persistence_failure Time_String_sample conf_secret
              env_disk_full world_empty w_fresh
              (request_with ["Basic secrettoken"] [payload_ann])
              request_ann "disk full" eq_refl eq_refl eq_refl)
    as (_ & Hw & Hstatus & _ & Hsent & Htable & Hlog).
  intros failed. split; [exact Hw|]. split; [exact (Hstatus eq_refl)|].
  split; [exact Hsent|]. split; [exact Htable|exact Hlog].
Defined.

Lemma confirmation_from_record_witness :
  sending (fst (submitHandler Time_String_sample conf_secret env_ok world_empty w_fresh
                  (request_with ["Basic secrettoken"] [payload_ann])))
  = [confirmation Time_String_sample (new_record request_ann 1005)]
  /\ msg_header (confirmation Time_String_sample (new_record request_ann 1005)) !! "To"
     = Some ["ann@example.com"]
  /\ msg_parts (confirmation Time_String_sample (new_record request_ann 1005))
     = [("text/plain",
         "Dear student Ann," +:+ newline
         +:+ newline
         +:+ "This email confirms that your presence at the course" +:+ newline
         +:+ "Privacy and Identity has been registered at: "
         +:+ "2018-03-01 10:00:00 +0100 CET" +:+ newline
         +:+ newline
         +:+ "With best regards," +:+ newline
         +:+ "Koning and Jacobs" +:+ newline)].
Proof.
  destruct (confirmation_from_record Time_String_sample) as (Hfields & _ & _ & Hsent).
  split; [|split].
  - exact (Hsent conf_secret env_ok world_empty w_fresh
             (request_with ["Basic secrettoken"] [payload_ann]) request_ann
             eq_refl eq_refl).
  - exact (proj1 (Hfields (new_record request_ann 1005))).
  - exact (proj2 (proj2 (proj2 (Hfields (new_record request_ann 1005))))).
Defined.

Lemma submitHandler_accepts_unmarshalled_witness :
  let r := request_with ["Basic secrettoken"] [payload_partial] in
  let st' := fst (submitHandler Time_String_sample conf_secret env_ok world_empty w_fresh r) in
  snd (submitHandler Time_String_sample conf_secret env_ok world_empty w_fresh r) = w_fresh
  /\ (exists m, sending st' = [m] /\ msg_header m !! "To" = Some [""])
  /\ table st'
     = [{| Record_ID := 1; Record_When := 1005; Record_Name := "Ann";
           Record_SurfId := ""; Record_EMail := "" |}].
Proof.
  intros r st'.
  destruct (submitHandler_accepts_unmarshalled Time_String_sample conf_secret env_ok
              world_empty w_fresh r eq_refl) as (Haccept & _).
  destruct (Haccept {| Name := "Ann"; SurfId := ""; EMail := "" |} eq_refl)
    as (Hw & _ & Hsent & Hstored).
  split; [exact Hw|]. split; [exact Hsent|exact (Hstored eq_refl)].
Defined.

(** The accepted scenario, whole: status 200, one row under key 1 with the
    three strings of the payload, one message addressed to Ann. *)
Example scenario_accepted :
  let stored :=
    {| Record_ID := 1; Record_When := 1005; Record_Name := "Ann";
       Record_SurfId := "ann123"; Record_EMail := "ann@example.com" |} in
  let '(st', w') :=
    submitHandler Time_String_sample conf_secret env_ok world_empty w_fresh
      (request_with ["Basic secrettoken"] [payload_ann]) in
  response_status w' = 200
  /\ table st' = [stored]
  /\ sending st' = [confirmation Time_String_sample stored]
  /\ msg_header (confirmation Time_String_sample stored) !! "To"
     = Some ["ann@example.com"]
  /\ log_lines st' = [].
Proof. vm_compute. repeat split. Qed.

(** Keys are matched without regard to case, values are not trimmed, and
    a member of the wrong type is an error that names the field. *)
Example unmarshal_folds_keys :
  json_Unmarshal ("{" +:+ quoted "name" +:+ ":" +:+ quoted " Ann " +:+ ","
                      +:+ quoted "SURFID" +:+ ": null}") Request_zero
  = ({| Name := " Ann "; SurfId := ""; EMail := "" |}, None).
Proof. vm_compute. reflexivity. Qed.

Example unmarshal_wrong_type :
  Error <$> snd (json_Unmarshal ("{" +:+ quoted "EMail" +:+ ": 3}") Request_zero)
  = Some "json: cannot unmarshal number into Go struct field Request.EMail of type string".
Proof. vm_compute. reflexivity. Qed.

Example unmarshal_array :
  Error <$> snd (json_Unmarshal "[]" Request_zero)
  = Some "json: cannot unmarshal array into Go value of type main.Request".
Proof. vm_compute. reflexivity. Qed.

(** * Further properties *)

(** ** The gate, as a decision *)

(** X1. [checkAuthorization] answers true exactly when the allow-list is
    empty or the Authorization header is the word Basic, one space and an
    entry of the list; and it ends in one of three ways: true with the
    writer untouched, false with the 400 error, false with the 401 error. *)
Theorem checkAuthorization_decision (conf : Conf) (w : ResponseWriter) (r : http_Request) :
  let h := Header_Get (Header r) "Authorization" in
  let allowed := AllowedAuthorizationTokens conf in
  (snd (checkAuthorization conf w r) = true <->
   allowed = [] \/ exists token, h = "Basic " +:+ token /\ token ∈ allowed)
  /\ (checkAuthorization conf w r = (w, true)
      \/ checkAuthorization conf w r
         = (http_Error w "Bad or missing Authorization header" 400, false)
      \/ checkAuthorization conf w r = (http_Error w "Access denied" 401, false)).
Proof.
  intros h allowed. unfold checkAuthorization. fold h. fold allowed.
  destruct allowed as [|t0 ts] eqn:Ea.
  { cbn. split; [split; auto|auto]. }
  cbn [length Nat.eqb].
  set (auth := strings_SplitN h " " 2).
  assert (Hshape : forall token, h = "Basic " +:+ token ->
                     length auth = 2%nat /\ nth 0 auth "" = "Basic").
  { intros token Hh. subst auth. rewrite Hh, SplitN_Basic. auto. }
  destruct (Nat.eqb_spec (length auth) 2) as [Hlen|Hlen]; cbn [negb orb].
  2:{ split; [|auto]. cbn [snd]. split; [intros [=]|].
      intros [[=]|(token & Hh & _)]. destruct (Hshape _ Hh). contradiction. }
  destruct (String.eqb_spec (nth 0 auth "") "Basic") as [Hb|Hb]; cbn [negb].
  2:{ split; [|auto]. cbn [snd]. split; [intros [=]|].
      intros [[=]|(token & Hh & _)]. destruct (Hshape _ Hh). contradiction. }
  pose proof (SplitN_Basic_inv h Hlen Hb) as Hh. fold auth in Hh.
  set (token := nth 1 auth "") in *.
  destruct (token_allowed (bytes token) (t0 :: ts)) eqn:Et; cbn [snd].
  - split; [|auto]. split; [|reflexivity]. intros _. right. exists token.
    split; [exact Hh|]. apply token_allowed_spec, Et.
  - split; [|auto]. split; [intros [=]|].
    intros [[=]|(token' & Hh' & Hin)].
    rewrite Hh in Hh'. apply (inj (String.append "Basic ")) in Hh'. subst token'.
    apply token_allowed_spec in Hin. congruence.
Qed.

(** X2. The allow-list counts as a set: two configurations whose lists
    have the same entries, in whatever order and multiplicity, give the
    same answer and the same response on every request. *)
Theorem checkAuthorization_allow_list_as_set
    (conf conf' : Conf) (w : ResponseWriter) (r : http_Request) :
  (forall token, token ∈ AllowedAuthorizationTokens conf
                 <-> token ∈ AllowedAuthorizationTokens conf') ->
  checkAuthorization conf w r = checkAuthorization conf' w r.
Proof.
  intros Hsame. unfold checkAuthorization.
  set (token := nth 1 (strings_SplitN (Header_Get (Header r) "Authorization") " " 2) "").
  assert (Hallowed : token_allowed (bytes token) (AllowedAuthorizationTokens conf)
                     = token_allowed (bytes token) (AllowedAuthorizationTokens conf')).
  { apply eq_true_iff_eq. rewrite !token_allowed_spec. apply Hsame. }
  rewrite Hallowed.
  destruct (AllowedAuthorizationTokens conf) as [|t ts],
           (AllowedAuthorizationTokens conf') as [|t' ts']; try reflexivity.
  - exfalso. apply (not_elem_of_nil t'), Hsame. constructor.
  - exfalso. apply (not_elem_of_nil t), Hsame. constructor.
Qed.

Lemma checkAuthorization_allow_list_as_set_witness :
  checkAuthorization conf_two w_fresh (request_with ["Basic beta"] [])
  = checkAuthorization conf_two_shuffled w_fresh (request_with ["Basic beta"] []).
Proof.
  apply checkAuthorization_allow_list_as_set.
  intros token. unfold conf_two, conf_two_shuffled. simpl.
  rewrite !elem_of_cons, !elem_of_nil. tauto.
Defined.

(** ** The handler, over all its paths *)

Lemma checkAuthorization_false_response (conf : Conf) (w : ResponseWriter) (r : http_Request) :
  snd (checkAuthorization conf w r) = false ->
  fst (checkAuthorization conf w r)
    = http_Error w "Bad or missing Authorization header" 400
  \/ fst (checkAuthorization conf w r) = http_Error w "Access denied" 401.
Proof.
  unfold checkAuthorization.
  repeat match goal with |- context [if ?b then _ else _] => destruct b end;
    simpl; intros H; try discriminate; auto.
Qed.

Section HandlerPaths.

Variable Time_String : Time -> string.

Lemma submitHandler_handled (conf : Conf) (env : Env) (st : World)
    (w : ResponseWriter) (r : http_Request) :
  handled Time_String conf env st w r (submitHandler Time_String conf env st w r).
Proof.
  destruct (snd (checkAuthorization conf w r)) eqn:Hauth.
  2:{ rewrite (submitHandler_rejected Time_String conf env st w r Hauth).
      apply handled_rejected, Hauth. }
  destruct (json_Unmarshal (FormValue r "request") Request_zero) as [request [e|]] eqn:Hreq.
  { rewrite (submitHandler_invalid Time_String conf env st w r e Hauth)
      by (rewrite Hreq; reflexivity).
    apply handled_invalid; [exact Hauth|rewrite Hreq; reflexivity]. }
  destruct (submitHandler_accepted_parts Time_String conf env st w r request Hauth Hreq)
    as (Hw & Hwall & Hcalls & Hrest).
  destruct (submitHandler Time_String conf env st w r) as [st' w'].
  simpl in Hw, Hwall, Hcalls, Hrest. subst w'.
  apply (handled_accepted Time_String conf env st w r request st' Hauth Hreq Hwall Hcalls).
  - destruct (create_error env); tauto.
  - destruct (create_error env); destruct Hrest as (_ & _ & _ & ->); reflexivity.
Qed.

(** X3. On a writer nothing was written to, the status is 200, 400 or
    401, and side effects go with the 200 and only with it: a 200 means
    one call of [db.Create] and one message handed over, any other status
    means the state is exactly the one the handler was called in. *)
Theorem submitHandler_status_and_effects (conf : Conf) (env : Env) (st : World)
    (w : ResponseWriter) (r : http_Request) :
  rw_status w = None ->
  let st' := fst (submitHandler Time_String conf env st w r) in
  let status := response_status (snd (submitHandler Time_String conf env st w r)) in
  (status = 200 \/ status = 400 \/ status = 401)
  /\ (status = 200 ->
      exists record m,
        creates st' = creates st ++ [record] /\ sending st' = sending st ++ [m])
  /\ (status <> 200 -> st' = st).
Proof.
  intros Hfresh st' status. subst st' status.
  destruct (submitHandler_handled conf env st w r)
    as [Hauth|e Hauth He|request st' Hauth Hreq Hwall Hcalls Hdb Hsent]; cbn [fst snd].
  - destruct (checkAuthorization_false_response conf w r Hauth) as [-> | ->];
      rewrite (http_Error_status w _ _ Hfresh);
      (split; [auto|split; [intros [=]|reflexivity]]).
  - rewrite (http_Error_status w _ _ Hfresh).
    split; [auto|split; [intros [=]|reflexivity]].
  - assert (Hok : response_status w = 200)
      by (unfold response_status; rewrite Hfresh; reflexivity).
    rewrite Hok. split; [auto|split; [eauto|intros H; contradiction]].
Qed.

(** X4. Whatever the request and whatever the surroundings do, a call only
    appends: the table, the calls of [db.Create], the log and the outgoing
    messages each keep what they held and gain at most one entry; a new
    row takes the next key; the clock and the next key never go back. *)
Theorem submitHandler_append_only (conf : Conf) (env : Env) (st : World)
    (w : ResponseWriter) (r : http_Request) :
  let st' := fst (submitHandler Time_String conf env st w r) in
  exists rows calls lines messages,
    table st' = table st ++ rows
    /\ creates st' = creates st ++ calls
    /\ log_lines st' = log_lines st ++ lines
    /\ sending st' = sending st ++ messages
    /\ (length rows <= 1)%nat /\ (length calls <= 1)%nat
    /\ (length lines <= 1)%nat /\ (length messages <= 1)%nat
    /\ (length rows + length lines <= length calls)%nat
    /\ Forall (fun row => Record_ID row = next_ID st) rows
    /\ next_ID st' = next_ID st + Z.of_nat (length rows)
    /\ wall st <= wall st'.
Proof.
  intros st'. subst st'.
  destruct (submitHandler_handled conf env st w r)
    as [Hauth|e Hauth He|request st' Hauth Hreq Hwall Hcalls Hdb Hsent]; cbn [fst].
  - exists [], [], [], []. rewrite !app_nil_r. simpl.
    repeat (split; [first [reflexivity|lia|constructor]|]). lia.
  - exists [], [], [], []. rewrite !app_nil_r. simpl.
    repeat (split; [first [reflexivity|lia|constructor]|]). lia.
  - destruct (create_error env) as [e|]; destruct Hdb as (Ht & Hn & Hl).
    + eexists [], [_], [_], [_]. rewrite app_nil_r. simpl.
      repeat (split; [first [eassumption|lia|constructor]|]). lia.
    + eexists [_], [_], [], [_]. rewrite app_nil_r. simpl.
      repeat (split; [first [eassumption|lia|constructor; [reflexivity|constructor]]|]).
      lia.
Qed.

(** X5. For an authorized request on a writer nothing was written to, the
    answer is 200 exactly when the [request] field is well-formed JSON that
    denotes [null] or an object each of whose members either has a key
    that addresses no field or holds a string or [null]; every other
    payload is answered with 400. *)
Theorem submitHandler_accepts_iff (conf : Conf) (env : Env) (st : World)
    (w : ResponseWriter) (r : http_Request) :
  snd (checkAuthorization conf w r) = true ->
  rw_status w = None ->
  let data := FormValue r "request" in
  let status := response_status (snd (submitHandler Time_String conf env st w r)) in
  let fits :=
    checkValid data = None
    /\ (read_value data = Some JNull
        \/ exists ms, read_value data = Some (JObject ms)
                      /\ Forall (fun m => member_fits m = true) ms) in
  (status = 200 <-> fits) /\ (~ fits -> status = 400).
Proof.
  intros Hauth Hfresh data status fits. subst status fits.
  destruct (json_Unmarshal data Request_zero) as [request [e|]] eqn:Hreq.
  - rewrite (submitHandler_invalid Time_String conf env st w r e Hauth)
      by (fold data; rewrite Hreq; reflexivity).
    cbn [snd]. rewrite (http_Error_status w _ _ Hfresh).
    split; [|reflexivity]. split; [intros [=]|].
    intros [Hvalid Hshape].
    assert (Hok : exists request', json_Unmarshal data Request_zero = (request', None)).
    { destruct Hshape as [Hnull|(ms & Hobj & Hfit)].
      - exists Request_zero. apply json_Unmarshal_ok. eauto.
      - eexists. apply json_Unmarshal_ok. split; [exact Hvalid|]. right. eauto. }
    destruct Hok as [request' Hok]. rewrite Hok in Hreq. discriminate.
  - destruct (submitHandler_accepted_parts Time_String conf env st w r request Hauth Hreq)
      as (-> & _).
    assert (Hfits : checkValid data = None
                    /\ (read_value data = Some JNull
                        \/ exists ms, read_value data = Some (JObject ms)
                                      /\ Forall (fun m => member_fits m = true) ms)).
    { apply json_Unmarshal_ok in Hreq as [Hvalid Hshape].
      split; [exact Hvalid|].
      destruct Hshape as [[Hnull _]|(ms & Hobj & Hfit & _)]; eauto. }
    split; [|intros Hnot; contradiction].
    split; [intros _; exact Hfits|].
    intros _. unfold response_status. rewrite Hfresh. reflexivity.
Qed.

End HandlerPaths.

Lemma submitHandler_status_and_effects_witness :
  let result :=
    submitHandler Time_String_sample conf_secret env_ok world_empty w_fresh
      (request_with ["Basic wrongtoken"] [payload_ann]) in
  response_status (snd result) = 401 /\ fst result = world_empty.
Proof.
  intros result.
  destruct (submitHandler_status_and_effects Time_String_sample conf_secret env_ok world_empty w_fresh
              (request_with ["Basic wrongtoken"] [payload_ann]) eq_refl)
    as (_ & _ & Hunchanged).
  split; [reflexivity|]. apply Hunchanged. intros [=].
Defined.

Lemma submitHandler_accepts_iff_witness :
  response_status
    (snd (submitHandler Time_String_sample conf_secret env_ok world_empty w_fresh
            (request_with ["Basic secrettoken"] [payload_partial]))) = 200.
Proof.
  apply (proj1 (submitHandler_accepts_iff Time_String_sample conf_secret env_ok
                  world_empty w_fresh
                  (request_with ["Basic secrettoken"] [payload_partial])
                  eq_refl eq_refl)).
  split; [reflexivity|]. right.
  exists [("Name", JString "Ann"); ("Course", JString "Privacy")].
  split; [reflexivity|]. repeat constructor.
Defined.

(** ** What an object leaves in the record *)

Lemma field_eqb_eq (f g : field) : field_eqb f g = true <-> f = g.
Proof. destruct f, g; simpl; split; intros H; try reflexivity; discriminate. Qed.

Lemma decode_member_assigns (f : field) (m : string * json) (d : decodeState) :
  get_field f (target (decode_member d m))
  = default (get_field f (target d)) (assigns f m).
Proof.
  unfold decode_member, assigns.
  destruct (find_field (fst m)) as [f'|]; [|reflexivity].
  destruct (field_eqb f' f) eqn:E.
  - apply field_eqb_eq in E. subst f'.
    destruct (snd m); try reflexivity;
      try (unfold store_field, saveError; destruct (savedError d); reflexivity).
    destruct f; reflexivity.
  - assert (Hne : f <> f') by (intros ->; destruct f'; discriminate).
    rewrite (store_field_other f f' _ d Hne). destruct (snd m); reflexivity.
Qed.

Lemma decode_members_last_assigned (f : field) (ms : list (string * json))
    (d : decodeState) :
  get_field f (target (fold_left decode_member ms d))
  = default (get_field f (target d)) (last_assigned f ms).
Proof.
  revert d. induction ms as [|m ms IH]; intros d; simpl; [reflexivity|].
  rewrite IH, decode_member_assigns.
  destruct (last_assigned f ms); reflexivity.
Qed.

Section RecordFromObject.

Variable Time_String : Time -> string.

(** X6. When the payload of an authorized request is an object that
    unmarshals, each string of the record handed to [db.Create] is the
    value of the last member whose key addresses that field (whatever the
    case of its letters) and whose value is a string; members holding
    [null] and members with other keys change nothing, and a field no such
    member names is empty. *)
Theorem submitHandler_last_member_wins (conf : Conf) (env : Env) (st : World)
    (w : ResponseWriter) (r : http_Request) (ms : list (string * json)) :
  snd (checkAuthorization conf w r) = true ->
  checkValid (FormValue r "request") = None ->
  read_value (FormValue r "request") = Some (JObject ms) ->
  Forall (fun m => member_fits m = true) ms ->
  creates (fst (submitHandler Time_String conf env st w r))
  = creates st
    ++ [{| Record_ID := 0;
           Record_When := wall st + Z.of_N (until_now env);
           Record_Name := default "" (last_assigned field_Name ms);
           Record_SurfId := default "" (last_assigned field_SurfId ms);
           Record_EMail := default "" (last_assigned field_EMail ms) |}].
Proof.
  intros Hauth Hvalid Hobj Hfit.
  set (d0 := {| target := Request_zero; savedError := None |}).
  assert (Hreq : json_Unmarshal (FormValue r "request") Request_zero
                 = (target (fold_left decode_member ms d0), None)).
  { apply json_Unmarshal_ok. split; [exact Hvalid|]. right. exists ms. auto. }
  destruct (submitHandler_accepted_parts Time_String conf env st w r _ Hauth Hreq)
    as (_ & _ & -> & _).
  unfold new_record.
  pose proof (decode_members_last_assigned field_Name ms d0) as HN.
  pose proof (decode_members_last_assigned field_SurfId ms d0) as HS.
  pose proof (decode_members_last_assigned field_EMail ms d0) as HE.
  simpl in HN, HS, HE. rewrite HN, HS, HE. reflexivity.
Qed.

End RecordFromObject.

Lemma submitHandler_last_member_wins_witness :
  creates (fst (submitHandler Time_String_sample conf_secret env_ok world_empty w_fresh
                  (request_with ["Basic secrettoken"] [payload_repeated])))
  = [{| Record_ID := 0; Record_When := 1005; Record_Name := "Bea";
        Record_SurfId := ""; Record_EMail := "" |}].
Proof.
  exact (submitHandler_last_member_wins Time_String_sample conf_secret env_ok world_empty
           w_fresh (request_with ["Basic secrettoken"] [payload_repeated])
           [("Name", JString "Ann"); ("name", JString "Bea"); ("NAME", JNull)]
           eq_refl eq_refl eq_refl
           ltac:(repeat constructor)).
Defined.

(** ** The two versions of the handler, and repeated submissions *)

Section HandlerVersions.

Variable Time_String : Time -> string.

(** X7. On every request the earlier handler and the current one agree on
    what is stored and on the status line: the same table, next key and
    calls of [db.Create], the same response status and headers.  The
    earlier one never logs and never hands over a message.  The responses
    are equal, except on a payload that does not unmarshal, where the two
    error messages name the form field differently. *)
Theorem submitHandler_versions_agree (conf : Conf) (env : Env) (st : World)
    (w : ResponseWriter) (r : http_Request) :
  let earlier := submitHandler_v0 conf env st w r in
  let current := submitHandler Time_String conf env st w r in
  table (fst earlier) = table (fst current)
  /\ next_ID (fst earlier) = next_ID (fst current)
  /\ creates (fst earlier) = creates (fst current)
  /\ rw_status (snd earlier) = rw_status (snd current)
  /\ rw_header (snd earlier) = rw_header (snd current)
  /\ log_lines (fst earlier) = log_lines st
  /\ sending (fst earlier) = sending st
  /\ (snd earlier = snd current
      \/ exists e,
           snd (json_Unmarshal (FormValue r "request") Request_zero) = Some e
           /\ snd earlier
              = http_Error w ("Missing or malformed events form field: " +:+ Error e) 400
           /\ snd current
              = http_Error w ("Missing or malformed request form field: " +:+ Error e) 400).
Proof.
  intros earlier current. subst earlier current.
  unfold submitHandler_v0, submitHandler.
  pose proof (checkAuthorization_true_silent conf w r) as Hsilent.
  destruct (checkAuthorization conf w r) as [w1 ok]. destruct ok; cbn [negb].
  2:{ cbn [fst snd]. repeat (split; [reflexivity|]). left. reflexivity. }
  specialize (Hsilent eq_refl). injection Hsilent as ->.
  destruct (json_Unmarshal (FormValue r "request") Request_zero) as [request [e|]].
  - cbn [fst snd]. repeat (split; [reflexivity|]). right. exists e. auto.
  - unfold time_Now, gorm_Create. destruct (create_error env); cbn;
      repeat (split; [reflexivity|]); left; reflexivity.
Qed.

(** X8. The response is a function of the configuration, the request and
    the writer alone: neither the stored state nor what the surroundings
    do (the clock, a failing write) shows in it. *)
Theorem submitHandler_response_ignores_surroundings (conf : Conf) (env env' : Env)
    (st st' : World) (w : ResponseWriter) (r : http_Request) :
  snd (submitHandler Time_String conf env st w r)
  = snd (submitHandler Time_String conf env' st' w r).
Proof.
  destruct (submitHandler_handled Time_String conf env st w r)
    as [Hauth|e Hauth He|request st1 Hauth Hreq _ _ _ _]; cbn [snd].
  - rewrite (submitHandler_rejected Time_String conf env' st' w r Hauth). reflexivity.
  - rewrite (submitHandler_invalid Time_String conf env' st' w r e Hauth He). reflexivity.
  - destruct (submitHandler_accepted_parts Time_String conf env' st' w r request Hauth Hreq)
      as (-> & _). reflexivity.
Qed.

(** X9. Nothing is deduplicated: when the same accepted request is handled
    twice and both writes succeed, the table gains two rows with the same
    three strings, under consecutive keys and with timestamps in order,
    and two messages are handed over. *)
Theorem submitHandler_twice_stores_twice (conf : Conf) (env1 env2 : Env) (st : World)
    (w : ResponseWriter) (r : http_Request) (request : Request) :
  snd (checkAuthorization conf w r) = true ->
  json_Unmarshal (FormValue r "request") Request_zero = (request, None) ->
  create_error env1 = None -> create_error env2 = None ->
  let st1 := fst (submitHandler Time_String conf env1 st w r) in
  let st2 := fst (submitHandler Time_String conf env2 st1 w r) in
  exists t1 t2,
    t1 <= t2
    /\ table st2
       = table st
         ++ [{| Record_ID := next_ID st; Record_When := t1;
                Record_Name := Name request; Record_SurfId := SurfId request;
                Record_EMail := EMail request |};
             {| Record_ID := next_ID st + 1; Record_When := t2;
                Record_Name := Name request; Record_SurfId := SurfId request;
                Record_EMail := EMail request |}]
    /\ length (sending st2) = (length (sending st) + 2)%nat.
Proof.
  intros Hauth Hreq Hok1 Hok2 st1 st2.
  destruct (submitHandler_accepted_parts Time_String conf env1 st w r request Hauth Hreq)
    as (_ & Hwall1 & _ & H1).
  destruct (submitHandler_accepted_parts Time_String conf env2 st1 w r request Hauth Hreq)
    as (_ & _ & _ & H2).
  fold st1 in Hwall1, H1. fold st2 in H2. rewrite Hok1 in H1. rewrite Hok2 in H2.
  destruct H1 as (Ht1 & Hn1 & _ & Hs1), H2 as (Ht2 & _ & _ & Hs2).
  exists (wall st + Z.of_N (until_now env1)), (wall st1 + Z.of_N (until_now env2)).
  split; [lia|]. split.
  - rewrite Ht2, Ht1, Hn1, <- app_assoc. reflexivity.
  - rewrite Hs2, Hs1, !length_app. simpl. lia.
Qed.

End HandlerVersions.

Lemma submitHandler_twice_stores_twice_witness :
  let r := request_with ["Basic secrettoken"] [payload_ann] in
  let st1 := fst (submitHandler Time_String_sample conf_secret env_ok world_empty w_fresh r) in
  let st2 := fst (submitHandler Time_String_sample conf_secret env_ok st1 w_fresh r) in
  exists t1 t2,
    table st2
    = [{| Record_ID := 1; Record_When := t1; Record_Name := "Ann";
          Record_SurfId := "ann123"; Record_EMail := "ann@example.com" |};
       {| Record_ID := 2; Record_When := t2; Record_Name := "Ann";
          Record_SurfId := "ann123"; Record_EMail := "ann@example.com" |}].
Proof.
  intros r st1 st2.
  destruct (submitHandler_twice_stores_twice Time_String_sample conf_secret env_ok env_ok
              world_empty w_fresh r request_ann eq_refl eq_refl eq_refl eq_refl)
    as (t1 & t2 & _ & Htable & _).
  exists t1, t2. exact Htable.
Defined.

(** ** Start-up *)

Lemma request_without_header_rejected (conf : Conf) :
  AllowedAuthorizationTokens conf <> [] ->
  snd (checkAuthorization conf w_fresh (request_with [] [])) = false.
Proof.
  intros Hne. unfold checkAuthorization. rewrite (allow_list_nonempty _ Hne). reflexivity.
Qed.

Ltac trace_membership :=
  repeat match goal with
  | H : _ ∈ _ ++ _ |- _ => apply elem_of_app in H as [H|H]
  | H : _ ∈ _ :: _ |- _ => apply elem_of_cons in H as [H|H]
  | H : _ ∈ [] |- _ => apply elem_of_nil in H; contradiction
  | H : @eq event _ _ |- _ => first [discriminate H | injection H as H]
  end.

Ltac absent_from_trace H := exfalso; simpl in H; trace_membership.

Ltac trace_end :=
  split;
  [ intros ?; match goal with H : _ ∈ _ |- _ => simpl in H end; trace_membership
  | eexists _, _; split; [reflexivity|];
    split;
    [ intros ? ?; match goal with H : _ ∈ _ |- _ => simpl in H end; trace_membership
    | first [ left; reflexivity
            | right; left; eexists; split; [reflexivity|reflexivity]
            | right; right; split; [reflexivity|eexists _, _; reflexivity] ] ] ].

Section MainProperties.

Variable yaml_Unmarshal : string -> Conf -> Conf * option string.

(** The run of [main] that gets as far as serving, written out. *)
Lemma main_serving (env : StartEnv) (addr : string) (conf : Conf) :
  ListenAndServe addr conf ∈ main yaml_Unmarshal env ->
  exists config buf,
    flag_Parse env = flag_parsed config
    /\ stat_config env <> stat_not_exist
    /\ read_config env = inl buf
    /\ yaml_Unmarshal buf conf_default = (conf, None)
    /\ open_error env = None
    /\ addr = BindAddr conf
    /\ main yaml_Unmarshal env
       = [Stat (default "config.yaml" config);
          ReadFile (default "config.yaml" config);
          Log "Opening database ..."; OpenDb (DbPath conf); Log " ok";
          Log "Auto-migration (if necessary) ..."; AutoMigrate; Log " ok";
          NewDialer "localhost" 25; Log ("Listening on " +:+ BindAddr conf)]
         ++ (if (length (AllowedAuthorizationTokens conf) =? 0)%nat
             then warning_lines else [])
         ++ [ListenAndServe (BindAddr conf) conf]
         ++ match serve_error env with
            | Some e => [Log e; Exit 1]
            | None => []
            end.
Proof.
  unfold main, main_configured, log_Fatal, finish.
  destruct (flag_Parse env) as [config|code] eqn:Hflag;
    [|intros H; simpl in H; trace_membership; fail].
  destruct (stat_config env) eqn:Hstat;
    try (intros H; simpl in H; trace_membership; fail);
    (destruct (read_config env) as [buf|e] eqn:Hread;
       [|intros H; simpl in H; trace_membership; fail];
     destruct (yaml_Unmarshal buf conf_default) as [conf' [e|]] eqn:Hyaml;
       [intros H; simpl in H; trace_membership; fail|];
     destruct (open_error env) as [e|] eqn:Hopen;
       [intros H; simpl in H; trace_membership; fail|];
     intros H; exists config, buf;
     assert (Hconf : addr = BindAddr conf' /\ conf = conf')
       by (unfold warning_lines in H;
           destruct (length (AllowedAuthorizationTokens conf') =? 0)%nat;
           destruct (serve_error env);
           simpl in H; trace_membership; subst; auto);
     destruct Hconf as [-> ->];
     (split; [reflexivity|]); (split; [discriminate|]);
     do 4 (split; [first [reflexivity|assumption]|]);
     destruct (length (AllowedAuthorizationTokens conf') =? 0)%nat;
     destruct (serve_error env); reflexivity).
Qed.

(** X10. [main] reaches [http.ListenAndServe] with address [addr] and
    configuration [conf] exactly when the command line parses, the
    configuration file is not reported missing, can be read, parses into
    [conf] from the defaults, the database opens, and [addr] is the bind
    address of [conf]. *)
Theorem main_serves_iff (env : StartEnv) (addr : string) (conf : Conf) :
  ListenAndServe addr conf ∈ main yaml_Unmarshal env
  <-> (exists config, flag_Parse env = flag_parsed config)
      /\ stat_config env <> stat_not_exist
      /\ (exists buf, read_config env = inl buf
                      /\ yaml_Unmarshal buf conf_default = (conf, None))
      /\ open_error env = None
      /\ addr = BindAddr conf.
Proof.
  split.
  - intros H. destruct (main_serving env addr conf H)
      as (config & buf & Hflag & Hstat & Hread & Hyaml & Hopen & Haddr & _).
    split; [exists config; exact Hflag|].
    split; [exact Hstat|]. split; [exists buf; auto|]. auto.
  - intros ((config & Hflag) & Hstat & (buf & Hread & Hyaml) & Hopen & ->).
    unfold main, main_configured, log_Fatal, finish.
    rewrite Hflag, Hread, Hyaml, Hopen.
    destruct (stat_config env); [|contradiction|];
      destruct (serve_error env);
      rewrite !elem_of_app; first [left; left; right; constructor|right; constructor].
Qed.

(** X11. In a run that serves, and in which [ListenAndServe] does not
    return the warning text as its error, the warning about an empty
    allow-list is logged exactly when the list is empty, which is exactly
    when [checkAuthorization] lets every request through. *)
Theorem main_warning_iff_open_access (env : StartEnv) (addr : string) (conf : Conf) :
  ListenAndServe addr conf ∈ main yaml_Unmarshal env ->
  serve_error env <> Some "Warning: 'allowedauthorizationtokens' is empty!" ->
  (Log "Warning: 'allowedauthorizationtokens' is empty!" ∈ main yaml_Unmarshal env
   <-> AllowedAuthorizationTokens conf = [])
  /\ (AllowedAuthorizationTokens conf = []
      <-> forall w r, checkAuthorization conf w r = (w, true)).
Proof.
  intros H Hserve.
  destruct (main_serving env addr conf H) as (config & buf & _ & _ & _ & _ & _ & _ & ->).
  split.
  - destruct (AllowedAuthorizationTokens conf) as [|t ts]; cbn [length Nat.eqb].
    + split; [reflexivity|]. intros _. unfold warning_lines.
      rewrite !elem_of_app. right. left. constructor.
    + split; [|discriminate]. intros Hin. exfalso.
      destruct (serve_error env) as [e|];
        rewrite !elem_of_app in Hin; destruct Hin as [Hin|[Hin|[Hin|Hin]]];
        trace_membership; try discriminate. congruence.
  - split.
    + intros Hempty w r. unfold checkAuthorization. rewrite Hempty. reflexivity.
    + intros Hopen. destruct (AllowedAuthorizationTokens conf) as [|t ts] eqn:E;
        [reflexivity|exfalso].
      assert (Hne : AllowedAuthorizationTokens conf <> []) by (rewrite E; discriminate).
      pose proof (request_without_header_rejected conf Hne) as Hrej.
      rewrite Hopen in Hrej. discriminate.
Qed.

(** X12. [main] never returns, so the deferred [db.Close()] never runs: a
    run is either still serving, with [ListenAndServe] as its last step,
    or ends with [os.Exit] as its last step and only exit; the code is 1,
    unless it is the flag package that exits on the command line. *)
Theorem main_never_returns (env : StartEnv) :
  (CloseDb ∉ main yaml_Unmarshal env)
  /\ exists t last,
       main yaml_Unmarshal env = t ++ [last]
       /\ (forall code, Exit code ∉ t)
       /\ (last = Exit 1
           \/ (exists code, flag_Parse env = flag_exit code /\ last = Exit code)
           \/ (serve_error env = None
               /\ exists addr conf, last = ListenAndServe addr conf)).
Proof.
  unfold main, main_configured, log_Fatal, finish, warning_lines.
  destruct (flag_Parse env) as [config|code] eqn:Hflag.
  2: trace_end.
  destruct (stat_config env).
  2: trace_end.
  all: destruct (read_config env) as [buf|e]; [|trace_end].
  all: destruct (yaml_Unmarshal buf conf_default) as [conf [e|]]; [trace_end|].
  all: destruct (open_error env) as [e|]; [trace_end|].
  all: destruct (length (AllowedAuthorizationTokens conf) =? 0)%nat;
    destruct (serve_error env) as [e|] eqn:Hserve; trace_end.
Qed.

(** X13. The database is opened only in a run in which the configuration
    file was read and parsed without error, and at the path the parsed
    configuration gives; when parsing leaves [DbPath] as it was, that path
    is db.sqlite3. *)
Theorem main_opens_configured_database (env : StartEnv) (path : string) :
  OpenDb path ∈ main yaml_Unmarshal env ->
  exists buf,
    read_config env = inl buf
    /\ snd (yaml_Unmarshal buf conf_default) = None
    /\ path = DbPath (parsed_conf yaml_Unmarshal buf)
    /\ (DbPath (parsed_conf yaml_Unmarshal buf) = DbPath conf_default ->
        path = "db.sqlite3").
Proof.
  unfold main, main_configured, log_Fatal, finish, warning_lines, parsed_conf.
  intros H. destruct (flag_Parse env) as [config|code].
  2: absent_from_trace H.
  destruct (stat_config env).
  2: absent_from_trace H.
  all: destruct (read_config env) as [buf|e]; [|absent_from_trace H].
  all: destruct (yaml_Unmarshal buf conf_default) as [conf [e|]] eqn:Hyaml;
    [absent_from_trace H|].
  all: exists buf; rewrite Hyaml; cbn [fst snd].
  all: assert (Hpath : path = DbPath conf)
    by (destruct (open_error env);
        [|destruct (length (AllowedAuthorizationTokens conf) =? 0)%nat;
          destruct (serve_error env)];
        simpl in H; trace_membership; subst; reflexivity).
  all: subst path; split; [reflexivity|split; [reflexivity|split; [reflexivity|]]].
  all: intros ->; reflexivity.
Qed.

End MainProperties.

Lemma main_warning_iff_open_access_witness :
  Log "Warning: 'allowedauthorizationtokens' is empty!" ∈ main yaml_sample start_ok
  <-> ["secrettoken"] = @nil string.
Proof.
  refine (proj1 (main_warning_iff_open_access yaml_sample start_ok ":8080"
                   (fst (yaml_sample "bindaddr: ':8080'" conf_default)) _ _)).
  - vm_compute. repeat first [apply list_elem_of_here|apply list_elem_of_further].
  - discriminate.
Defined.

Lemma main_opens_configured_database_witness :
  OpenDb "db.sqlite3" ∈ main yaml_sample start_ok.
Proof.
  assert (Hin : OpenDb (DbPath (fst (yaml_sample "bindaddr: ':8080'" conf_default)))
                ∈ main yaml_sample start_ok)
    by (vm_compute; repeat first [apply list_elem_of_here|apply list_elem_of_further]).
  destruct (main_opens_configured_database yaml_sample start_ok _ Hin)
    as (buf & Hread & _ & _ & Hdefault).
  injection Hread as <-. rewrite <- (Hdefault eq_refl) at 1. exact Hin.
Defined.
